(** * ShortPhysics / oomf-plotter: a shallow embedding of [plotter.py]

    The script reads one file of simulated sites (three position fields and
    three magnetization fields per line), splits it into a position array and
    a magnetization array and draws a scatter plot with a quiver overlay.

    The embedding follows the script function by function ([load_data],
    [load_csv], [load_oomf], [plot_magnetization]).  The parts of pandas,
    numpy and matplotlib the script calls are modelled next to it, each with
    the behaviour the script relies on:

    - numbers are IEEE-754 binary64 values ([spec_float] at precision 53) or
      64-bit integers with wrap-around;
    - a numpy array is a value of dimension 0, 1 or 2, of dtype [float64] or
      [int64], living at an address of a store of array objects; basic
      slicing creates a view on its base array, fancy indexing and
      arithmetic create new arrays;
    - a file is its sequence of records, each record the sequence of numeric
      fields of one line under the delimiter of the reader that opens it;
    - printing and opening files are recorded in a trace. *)

From Stdlib Require Import ZArith QArith Lia Bool Ascii String.
From Stdlib Require Import SpecFloat.
From stdpp Require Import base option list strings gmap.

Local Open Scope string_scope.
Local Open Scope list_scope.
Local Open Scope nat_scope.

(* ===================================================================== *)
(** * Binary64 numbers *)
(* ===================================================================== *)

Module F64.

Definition prec : Z := 53.
Definition emax : Z := 1024.

(** A numpy [float64]. *)
Definition float64 : Type := spec_float.

Definition mul : float64 -> float64 -> float64 := SFmul prec emax.
Definition sub : float64 -> float64 -> float64 := SFsub prec emax.
Definition div : float64 -> float64 -> float64 := SFdiv prec emax.
Definition eqb : float64 -> float64 -> bool := SFeqb.
Definition ltb : float64 -> float64 -> bool := SFltb.
Definition leb : float64 -> float64 -> bool := SFleb.

(** The binary64 value of an integer literal. *)
Definition of_Z (z : Z) : float64 := binary_normalize prec emax z 0 false.

Definition nan : float64 := S754_nan.

Definition is_nan (x : float64) : bool :=
  match x with S754_nan => true | _ => false end.


(** Truth value of a number, as [ndarray.any] takes it: everything but the
    two zeros is true (NaN included). *)
Definition truthy (x : float64) : bool :=
  match x with S754_zero _ => false | _ => true end.

(** One step of the reductions [np.max] and [np.min], from the value so
    far [a] and the next entry [b]: a NaN operand wins, and of two equal
    numbers (the two zeros) the later one is kept. *)
Definition maximum (a b : float64) : float64 :=
  if is_nan a then a else if is_nan b then b else if ltb b a then a else b.

Definition minimum (a b : float64) : float64 :=
  if is_nan a then a else if is_nan b then b else if ltb a b then a else b.

(** The rational a finite binary64 value denotes. *)
Definition to_Q (x : float64) : option Q :=
  match x with
  | S754_zero _ => Some 0%Q
  | S754_finite s m e =>
      let v := (inject_Z (Zpos m) * Qpower 2 e)%Q in
      Some (Qred (if s then Qopp v else v))
  | _ => None
  end.

#[global] Instance float64_eq_dec : EqDecision float64.
Proof. solve_decision. Defined.

End F64.

Abbreviation float64 := F64.float64.

(* ===================================================================== *)
(** * 64-bit integers *)
(* ===================================================================== *)

Module I64.

(** A numpy [int64] is an integer of [-2^63, 2^63); arithmetic that leaves
    the range wraps around. *)
Definition wrap (z : Z) : Z := ((z + 2 ^ 63) mod 2 ^ 64 - 2 ^ 63)%Z.

Definition in_range (z : Z) : Prop := (- 2 ^ 63 <= z < 2 ^ 63)%Z.

Definition mul (a b : Z) : Z := wrap (a * b).
Definition sub (a b : Z) : Z := wrap (a - b).

(** Truth value, as [ndarray.any] takes it. *)
Definition truthy (z : Z) : bool := negb (z =? 0)%Z.

End I64.

(* ===================================================================== *)
(** * Python strings *)
(* ===================================================================== *)

(** [s[-n:]] for [n > 0]: the last [n] characters, the whole string when it
    is shorter. *)
Definition py_suffix (n : nat) (s : string) : string :=
  String.substring (String.length s - n) n s.

(** [c in s] for a one-character [c]. *)
Fixpoint py_in (c : ascii) (s : string) : bool :=
  match s with
  | EmptyString => false
  | String a s' => if Ascii.eqb c a then true else py_in c s'
  end.

(* ===================================================================== *)
(** * Exceptions *)
(* ===================================================================== *)

Inductive exn : Type :=
| ValueError (msg : string)
| IndexError (msg : string)
| AxisError (msg : string)
| AttributeError (msg : string)
| FileNotFoundError (path : string)
| EmptyDataError (msg : string)
| ParserError (msg : string).

Inductive result (A : Type) : Type :=
| Ok (a : A)
| Raise (e : exn).
Arguments Ok {A} a.
Arguments Raise {A} e.

Definition result_bind {A B} (r : result A) (k : A -> result B) : result B :=
  match r with Ok a => k a | Raise e => Raise e end.

(** Error messages the script itself raises. *)
Definition msg_invalid_extension (filename : string) : string :=
  filename +:+ " has an invalid extension.".
Definition msg_not_csv : string := "filename does not have .csv extension.".
Definition msg_six_columns : string :=
  "Data in the .csv is not structured correctly.  File must have 6 columns.".

(** Error messages of the libraries. *)
Definition msg_tuple_index : string := "tuple index out of range".
Definition msg_too_many_indices : string := "too many indices for array".
Definition msg_index_out_of_bounds : string := "index out of bounds".
Definition msg_axis_out_of_bounds : string := "axis 1 is out of bounds".
Definition msg_zero_size_max : string :=
  "zero-size array to reduction operation maximum which has no identity".
Definition msg_zero_size_min : string :=
  "zero-size array to reduction operation minimum which has no identity".
Definition msg_columns_changed : string := "the number of columns changed".
Definition msg_no_columns : string := "No columns to parse from file".
Definition msg_tokenizing : string := "Error tokenizing data".
Definition msg_same_size : string := "x and y must be the same size".
Definition msg_c_size : string := "'c' argument is inconsistent with 'x' and 'y'".
Definition msg_quiver_size : string :=
  "Argument does not match the number of arrow positions".
Definition msg_no_such_object : string := "no such object".
Definition msg_other_dtype : string := "array of another dtype".

(* ===================================================================== *)
(** * numpy arrays as values *)
(* ===================================================================== *)

(** An array of dimension 0, 1 or 2.  A 2-dimensional array carries its
    column count, so that an array without rows still has a shape. *)
Inductive ndarray (A : Type) : Type :=
| Arr0 (x : A)
| Arr1 (xs : list A)
| Arr2 (ncols : nat) (rows : list (list A)).
Arguments Arr0 {A} x.
Arguments Arr1 {A} xs.
Arguments Arr2 {A} ncols rows.

(** Every row of a 2-dimensional array has [ncols] entries. *)
Definition wf_ndarray {A} (a : ndarray A) : Prop :=
  match a with
  | Arr2 c rows => Forall (fun r => length r = c) rows
  | _ => True
  end.

(** [a.shape], a tuple. *)
Definition shape {A} (a : ndarray A) : list nat :=
  match a with
  | Arr0 _ => []
  | Arr1 xs => [length xs]
  | Arr2 c rows => [length rows; c]
  end.

(** [t[i]] on a tuple. *)
Definition tuple_get {A} (t : list A) (i : nat) : result A :=
  match t !! i with
  | Some x => Ok x
  | None => Raise (IndexError msg_tuple_index)
  end.

(** [len(a)]: the size of the first axis (defined for dimension 1 and 2). *)
Definition len {A} (a : ndarray A) : option nat := shape a !! 0.

(** [a.ravel()]. *)
Definition ravel {A} (a : ndarray A) : list A :=
  match a with
  | Arr0 x => [x]
  | Arr1 xs => xs
  | Arr2 _ rows => concat rows
  end.

(** [np.squeeze(a)] on a 2-dimensional array: axes of length one go. *)
Definition squeeze2 {A} (ncols : nat) (rows : list (list A)) : ndarray A :=
  match rows, ncols with
  | [ [x] ], 1 => Arr0 x
  | [r], _ => Arr1 r
  | _, 1 => Arr1 (concat rows)
  | _, _ => Arr2 ncols rows
  end.

(** Basic indexing of the second axis, the two forms the script uses:
    [a[:, lo:hi]] (with [hi] possibly absent) and [a[:, j]]. *)
Inductive index2 : Type :=
| Cols (lo : nat) (hi : option nat)
| Col (j : nat).

Definition slice_row {A} (lo : nat) (hi : option nat) (r : list A) : list A :=
  match hi with
  | Some h => drop lo (take h r)
  | None => drop lo r
  end.

Definition slice_width (lo : nat) (hi : option nat) (c : nat) : nat :=
  match hi with
  | Some h => min h c - lo
  | None => c - lo
  end.

Definition apply_index2 {A} (ix : index2) (a : ndarray A) : result (ndarray A) :=
  match a with
  | Arr2 c rows =>
      match ix with
      | Cols lo hi => Ok (Arr2 (slice_width lo hi c) (map (slice_row lo hi) rows))
      | Col j =>
          if j <? c then
            match mapM (fun r : list A => r !! j) rows with
            | Some xs => Ok (Arr1 xs)
            | None => Raise (IndexError msg_index_out_of_bounds)
            end
          else Raise (IndexError msg_index_out_of_bounds)
      end
  | _ => Raise (IndexError msg_too_many_indices)
  end.

(** Integer-array indexing of the first axis, [a[idx, :]]: a new array with
    the rows of [a] at the positions listed in [idx]. *)
Definition take_rows {A} (idx : list nat) (a : ndarray A) : result (ndarray A) :=
  match a with
  | Arr2 c rows =>
      match mapM (fun i : nat => rows !! i) idx with
      | Some sel => Ok (Arr2 c sel)
      | None => Raise (IndexError msg_index_out_of_bounds)
      end
  | _ => Raise (IndexError msg_too_many_indices)
  end.

(** [a.any(axis=1)]: one boolean per row. *)
Definition any_axis1 (a : ndarray float64) : result (list bool) :=
  match a with
  | Arr2 _ rows => Ok (map (existsb F64.truthy) rows)
  | _ => Raise (AxisError msg_axis_out_of_bounds)
  end.

(** [np.where(cond)] on a 1-dimensional boolean array: a 1-tuple holding the
    increasing positions at which [cond] is true. *)
Fixpoint where_from (i : nat) (cond : list bool) : list nat :=
  match cond with
  | [] => []
  | b :: cond' =>
      if b then i :: where_from (S i) cond' else where_from (S i) cond'
  end.

Definition np_where (cond : list bool) : list (list nat) := [where_from 0 cond].

(** [np.max] and [np.min] of all entries. *)
Definition np_max (a : ndarray float64) : result float64 :=
  match ravel a with
  | [] => Raise (ValueError msg_zero_size_max)
  | x :: xs => Ok (foldl F64.maximum x xs)
  end.

Definition np_min (a : ndarray float64) : result float64 :=
  match ravel a with
  | [] => Raise (ValueError msg_zero_size_min)
  | x :: xs => Ok (foldl F64.minimum x xs)
  end.

(** Entrywise map, for [k * a] and [a / d] with a scalar operand. *)
Definition amap {A B} (f : A -> B) (a : ndarray A) : ndarray B :=
  match a with
  | Arr0 x => Arr0 (f x)
  | Arr1 xs => Arr1 (map f xs)
  | Arr2 c rows => Arr2 c (map (map f) rows)
  end.

(** ** Arrays of either dtype *)

(** The entries of an array are [float64] or [int64] numbers.  Indexing
    keeps the dtype, arithmetic is that of the dtype, and true division is
    done in binary64 whatever the operands. *)
Inductive ndvalue : Type :=
| Floats (a : ndarray float64)
| Ints (a : ndarray Z).

(** A numpy scalar, [np.float64] or [np.int64]. *)
Inductive scalar : Type :=
| FloatScalar (x : float64)
| IntScalar (z : Z).

Definition result_map {A B} (f : A -> B) (r : result A) : result B :=
  match r with Ok a => Ok (f a) | Raise e => Raise e end.

Definition value_shape (v : ndvalue) : list nat :=
  match v with Floats a => shape a | Ints a => shape a end.

Definition value_index2 (ix : index2) (v : ndvalue) : result ndvalue :=
  match v with
  | Floats a => result_map Floats (apply_index2 ix a)
  | Ints a => result_map Ints (apply_index2 ix a)
  end.

Definition value_take_rows (idx : list nat) (v : ndvalue) : result ndvalue :=
  match v with
  | Floats a => result_map Floats (take_rows idx a)
  | Ints a => result_map Ints (take_rows idx a)
  end.

Definition any_axis1_int (a : ndarray Z) : result (list bool) :=
  match a with
  | Arr2 _ rows => Ok (map (existsb I64.truthy) rows)
  | _ => Raise (AxisError msg_axis_out_of_bounds)
  end.

Definition value_any_axis1 (v : ndvalue) : result (list bool) :=
  match v with Floats a => any_axis1 a | Ints a => any_axis1_int a end.

Definition np_max_int (a : ndarray Z) : result Z :=
  match ravel a with
  | [] => Raise (ValueError msg_zero_size_max)
  | x :: xs => Ok (foldl Z.max x xs)
  end.

Definition np_min_int (a : ndarray Z) : result Z :=
  match ravel a with
  | [] => Raise (ValueError msg_zero_size_min)
  | x :: xs => Ok (foldl Z.min x xs)
  end.

Definition value_max (v : ndvalue) : result scalar :=
  match v with
  | Floats a => result_map FloatScalar (np_max a)
  | Ints a => result_map IntScalar (np_max_int a)
  end.

Definition value_min (v : ndvalue) : result scalar :=
  match v with
  | Floats a => result_map FloatScalar (np_min a)
  | Ints a => result_map IntScalar (np_min_int a)
  end.

(** Conversion to [float64], rounding to nearest. *)
Definition scalar_float (s : scalar) : float64 :=
  match s with FloatScalar x => x | IntScalar z => F64.of_Z z end.

Definition value_floats (v : ndvalue) : ndarray float64 :=
  match v with Floats a => a | Ints a => amap F64.of_Z a end.

(** The entries in order, by their binary64 values: what an artist is
    given. *)
Definition value_ravel (v : ndvalue) : list float64 := ravel (value_floats v).

(** [k * a] for a Python integer [k]: the product has the dtype of [a]. *)
Definition value_times (k : Z) (v : ndvalue) : ndvalue :=
  match v with
  | Floats a => Floats (amap (F64.mul (F64.of_Z k)) a)
  | Ints a => Ints (amap (I64.mul k) a)
  end.

(** [a - b] on two scalars: in [int64] when both are, else in binary64. *)
Definition scalar_minus (a b : scalar) : scalar :=
  match a, b with
  | IntScalar x, IntScalar y => IntScalar (I64.sub x y)
  | _, _ => FloatScalar (F64.sub (scalar_float a) (scalar_float b))
  end.

(** [a / d], true division: both operands are taken to binary64. *)
Definition value_divide (v : ndvalue) (d : scalar) : ndarray float64 :=
  amap (fun x => F64.div x (scalar_float d)) (value_floats v).

(* ===================================================================== *)
(** * The world: files, trace, array objects, figures *)
(* ===================================================================== *)

(** What the process does to its environment, in order: a line printed, a
    call to [open] made (whether or not the file was there). *)
Inductive event : Type :=
| Printed (line : string)
| Opened (path : string).

(** Addresses of objects. *)
Abbreviation loc := nat.

(** An array object either owns its entries, [float64] or [int64] numbers,
    or is a view: the entries of its base array seen through a chain of
    basic indexings. *)
Inductive array_obj : Type :=
| Owned (a : ndarray float64)
| View (base : loc) (ixs : list index2)
| OwnedInt (a : ndarray Z).

(** A scalar-mappable artist is named by its axes and its position there. *)
Abbreviation mappable := (loc * nat)%type.

(** What an [Axes] holds, in drawing order; the numbers of an artist are
    given by their binary64 values.  The axes a colorbar is given holds the
    colorbar of its mappable. *)
Inductive artist : Type :=
| PathCollection (x y : list float64) (s : Z) (c : list float64)
| QuiverArtist (x y u v c : list float64) (units : string)
| Colorbar (cr : mappable).

Record figure : Type := Figure {
  fig_axes : list loc;
  fig_colorbars : list mappable
}.

(** A file is the list of its records; a record without fields is a blank
    line. *)
Abbreviation records := (list (list float64)).

Record world : Type := World {
  files : gmap string records;
  trace : list event;
  arrays : list array_obj;
  axes : list (list artist);
  figures : list figure
}.

Definition set_trace (w : world) (t : list event) : world :=
  World (files w) t (arrays w) (axes w) (figures w).
Definition set_arrays (w : world) (a : list array_obj) : world :=
  World (files w) (trace w) a (axes w) (figures w).
Definition set_axes (w : world) (a : list (list artist)) : world :=
  World (files w) (trace w) (arrays w) a (figures w).
Definition set_figures (w : world) (f : list figure) : world :=
  World (files w) (trace w) (arrays w) (axes w) f.

(** Computations: they may raise, and they act on the world.  What was done
    before an exception stays done. *)
Definition M (A : Type) : Type := world -> result A * world.

#[global] Instance M_ret : MRet M := fun A (a : A) (w : world) => (Ok a, w).
#[global] Instance M_bind : MBind M := fun A B (k : A -> M B) (m : M A) (w : world) =>
  match m w with
  | (Ok a, w') => k a w'
  | (Raise e, w') => (Raise e, w')
  end.

Definition raise {A} (e : exn) : M A := fun w => (Raise e, w).
Definition lift {A} (r : result A) : M A := fun w => (r, w).

(** The world once [ev] has happened. *)
Definition logged (ev : event) (w : world) : world :=
  set_trace w (trace w ++ [ev]).

Definition emit (ev : event) : M unit := fun w => (Ok tt, logged ev w).

(** [print(line)]. *)
Definition print (line : string) : M unit := emit (Printed line).

(** All the records of a file. *)
Definition file_contents (filename : string) : M records :=
  fun w =>
    match files w !! filename with
    | Some recs => (Ok recs, w)
    | None => (Raise (FileNotFoundError filename), w)
    end.

(** [open(filename)] and reading all of it, as pandas does: the call to
    [open] is made, and fails when there is no such file. *)
Definition read_file (filename : string) : M records :=
  _ ← emit (Opened filename);
  file_contents filename.

(** Looking for a file without opening it, as [np.loadtxt] does before it
    opens anything: the search itself fails when there is no such file. *)
Definition find_file (filename : string) : M unit :=
  fun w =>
    match files w !! filename with
    | Some _ => (Ok tt, w)
    | None => (Raise (FileNotFoundError filename), w)
    end.

(** ** Array objects *)

(** The object that owns the entries [v]. *)
Definition object_of (v : ndvalue) : array_obj :=
  match v with Floats a => Owned a | Ints a => OwnedInt a end.

(** The entries an object owns, if it is not a view. *)
Definition owned_entries (o : array_obj) : option ndvalue :=
  match o with
  | Owned a => Some (Floats a)
  | OwnedInt a => Some (Ints a)
  | View _ _ => None
  end.

(** The entries visible through an address. *)
Definition array_data (σ : list array_obj) (l : loc) : result ndvalue :=
  match σ !! l with
  | Some (View b ixs) =>
      match σ !! b ≫= owned_entries with
      | Some v => foldl (fun r ix => result_bind r (value_index2 ix)) (Ok v) ixs
      | None => Raise (AttributeError msg_no_such_object)
      end
  | Some (Owned a) => Ok (Floats a)
  | Some (OwnedInt a) => Ok (Ints a)
  | None => Raise (AttributeError msg_no_such_object)
  end.

(** The entries visible through the address of a [float64] array. *)
Definition array_value (σ : list array_obj) (l : loc) : result (ndarray float64) :=
  match array_data σ l with
  | Ok (Floats a) => Ok a
  | Ok (Ints _) => Raise (AttributeError msg_other_dtype)
  | Raise e => Raise e
  end.

(** The entries visible through the address of an [int64] array. *)
Definition array_ints (σ : list array_obj) (l : loc) : result (ndarray Z) :=
  match array_data σ l with
  | Ok (Ints a) => Ok a
  | Ok (Floats _) => Raise (AttributeError msg_other_dtype)
  | Raise e => Raise e
  end.

Definition read_array (l : loc) : M ndvalue :=
  fun w => (array_data (arrays w) l, w).

Definition alloc_array (o : array_obj) : M loc :=
  fun w => (Ok (length (arrays w)), set_arrays w (arrays w ++ [o])).

(** A new array owning the [float64] entries [a]. *)
Definition new_array (a : ndarray float64) : M loc := alloc_array (Owned a).

(** A new array owning the entries [v], of either dtype. *)
Definition new_value (v : ndvalue) : M loc := alloc_array (object_of v).

(** Basic indexing [a[:, ...]]: a view on the array that owns the entries. *)
Definition view_on (l : loc) (ix : index2) : M loc :=
  fun w =>
    match arrays w !! l with
    | Some (View b ixs) => alloc_array (View b (ixs ++ [ix])) w
    | Some _ => alloc_array (View l [ix]) w
    | None => (Raise (AttributeError msg_no_such_object), w)
    end.

Definition new_view (l : loc) (ix : index2) : M loc :=
  v ← read_array l;
  _ ← lift (value_index2 ix v);
  view_on l ix.

(** ** pandas and numpy readers *)

Definition blank (r : list float64) : bool :=
  match r with [] => true | _ => false end.

(** Both readers skip blank lines. *)
Definition nonblank (recs : records) : records :=
  filter (fun r => blank r = false) recs.

(** A pandas [DataFrame]: its column count and its rows of values. *)
Record DataFrame : Type := Frame {
  df_columns : nat;
  df_values : list (list float64)
}.

(** The [header] argument of [pd.read_csv]: [header=None], or left to its
    default, which takes the first line as the column labels. *)
Inductive header_arg : Type := HeaderNone | HeaderInfer.

(** A line shorter than the table is filled with NaN. *)
Definition pad_row (width : nat) (r : list float64) : list float64 :=
  r ++ replicate (width - length r) F64.nan.

(** A line longer than the table is a tokenizing error. *)
Definition frame_rows (width : nat) (recs : records) : result (list (list float64)) :=
  if forallb (fun r => length r <=? width) recs
  then Ok (map (pad_row width) recs)
  else Raise (ParserError msg_tokenizing).

(** The frame [pd.read_csv] builds from the records of a file.  Without a
    header the first line fixes the column count.  With a header the labels
    fix it, and when the first data line has more fields than there are
    labels the surplus leading fields are the row index, not values. *)
Definition read_csv_frame (header : header_arg) (recs : records) : result DataFrame :=
  match nonblank recs, header with
  | [], _ => Raise (EmptyDataError msg_no_columns)
  | r :: rest, HeaderNone =>
      result_bind (frame_rows (length r) (r :: rest))
        (fun rows => Ok (Frame (length r) rows))
  | h :: rest, HeaderInfer =>
      let width := max (length h) (match rest with [] => 0 | r :: _ => length r end) in
      result_bind (frame_rows width rest)
        (fun rows => Ok (Frame (length h) (map (drop (width - length h)) rows)))
  end.

(** [pd.read_csv(filename, header=...)]. *)
Definition pd_read_csv (filename : string) (header : header_arg) : M DataFrame :=
  recs ← read_file filename;
  lift (read_csv_frame header recs).

(** [np.array(df)]: a new 2-dimensional array of the frame's values.  The
    records of a file carry the values of its fields, not how they are
    written, and the array is made of these values as [float64] numbers.
    (For a file all of whose fields are written as integers pandas makes
    an [int64] array of the same values; arrays of that dtype are among
    the array objects, the loading of such a file is not modelled with its
    dtype.) *)
Definition np_array (df : DataFrame) : M loc :=
  new_array (Arr2 (df_columns df) (df_values df)).

(** The array [np.loadtxt] builds from the records of a file: every line
    must have as many fields as the first; the table is squeezed, so one
    line, or one field per line, gives a 1-dimensional array, and a file
    without data an empty one. *)
Definition loadtxt_array (recs : records) : result (ndarray float64) :=
  match nonblank recs with
  | [] => Ok (Arr1 [])
  | r :: rest =>
      if forallb (fun r' => length r' =? length r) rest
      then Ok (squeeze2 (length r) (r :: rest))
      else Raise (ValueError msg_columns_changed)
  end.

(** [np.loadtxt(filename)]: the file is looked for first and opened only
    when it is there; the array is [float64] whatever the fields look
    like. *)
Definition np_loadtxt (filename : string) : M loc :=
  _ ← find_file filename;
  recs ← read_file filename;
  a ← lift (loadtxt_array recs);
  new_array a.

(** [a.shape]. *)
Definition shape_of (l : loc) : M (list nat) :=
  v ← read_array l; mret (value_shape v).

(* ===================================================================== *)
(** * The script: loading *)
(* ===================================================================== *)

(** [load_csv(filename, header=False)]. *)
Definition load_csv (filename : string) (header : bool) : M (loc * loc) :=
  if negb (String.eqb (py_suffix 4 filename) ".csv")
  then raise (ValueError msg_not_csv)
  else
    df ← (if negb header
          then pd_read_csv filename HeaderNone
          else pd_read_csv filename HeaderInfer);
    data ← np_array df;
    sh ← shape_of data;
    ncols ← lift (tuple_get sh 1);
    if negb (ncols =? 6)
    then raise (ValueError msg_six_columns)
    else
      pos ← new_view data (Cols 0 (Some 3));
      mag ← new_view data (Cols 3 None);
      mret (pos, mag).

(** [load_oomf(filename)]. *)
Definition load_oomf (filename : string) : M (loc * loc) :=
  data ← np_loadtxt filename;
  sh ← shape_of data;
  ncols ← lift (tuple_get sh 1);
  if negb (ncols =? 6)
  then raise (ValueError msg_six_columns)
  else
    pos ← new_view data (Cols 0 (Some 3));
    mag ← new_view data (Cols 3 None);
    mret (pos, mag).

(** [load_data(filename)]. *)
Definition load_data (filename : string) : M (loc * loc) :=
  _ ← print ("loading " +:+ filename +:+ " ...");
  if py_in "." (py_suffix 5 filename)
  then
    if String.eqb (py_suffix 4 filename) ".csv"
    then load_csv filename false
    else raise (ValueError (msg_invalid_extension filename))
  else load_oomf filename.

(* ===================================================================== *)
(** * matplotlib: figures, axes and artists *)
(* ===================================================================== *)

(** [plt.figure()]. *)
Definition plt_figure : M loc :=
  fun w => (Ok (length (figures w)), set_figures w (figures w ++ [Figure [] []])).

(** [fig.add_subplot(111)]: a new, empty axes registered in [fig]. *)
Definition add_subplot (fig : loc) : M loc :=
  fun w =>
    match figures w !! fig with
    | Some f =>
        let ax := length (axes w) in
        (Ok ax,
         set_figures (set_axes w (axes w ++ [[]]))
           (<[fig := Figure (fig_axes f ++ [ax]) (fig_colorbars f)]> (figures w)))
    | None => (Raise (AttributeError msg_no_such_object), w)
    end.

Definition add_artist (ax : loc) (a : artist) : M mappable :=
  fun w =>
    match axes w !! ax with
    | Some arts =>
        (Ok (ax, length arts), set_axes w (<[ax := arts ++ [a]]> (axes w)))
    | None => (Raise (AttributeError msg_no_such_object), w)
    end.

(** [ax.scatter(x, y, s=s, c=c)] with an array [c] of values to colour-map:
    the arguments are flattened and must agree in size; the artist keeps
    its own copies. *)
Definition ax_scatter (ax : loc) (x y : loc) (s : Z) (c : loc) : M mappable :=
  xv ← read_array x;
  yv ← read_array y;
  cv ← read_array c;
  if negb (length (value_ravel xv) =? length (value_ravel yv))
  then raise (ValueError msg_same_size)
  else if negb (length (value_ravel cv) =? length (value_ravel xv))
  then raise (ValueError msg_c_size)
  else add_artist ax
         (PathCollection (value_ravel xv) (value_ravel yv) s (value_ravel cv)).

(** [ax.quiver(x, y, u, v, c, units=units)]. *)
Definition ax_quiver (ax : loc) (x y u v c : loc) (units : string) : M mappable :=
  xv ← read_array x;
  yv ← read_array y;
  uv ← read_array u;
  vv ← read_array v;
  cv ← read_array c;
  if negb (length (value_ravel xv) =? length (value_ravel yv))
  then raise (ValueError msg_quiver_size)
  else if negb (forallb (fun a => length (value_ravel a) =? length (value_ravel xv))
                        [uv; vv; cv])
  then raise (ValueError msg_quiver_size)
  else add_artist ax
         (QuiverArtist (value_ravel xv) (value_ravel yv) (value_ravel uv)
                       (value_ravel vv) (value_ravel cv) units).

(** [fig.colorbar(cr)]: the colorbar of the mappable [cr] is drawn in a new
    axes of its own, which the figure takes in after the axes it has.  This
    is for a mappable of an axes of [fig] itself, as on every canvas the
    script makes; the statements about the axes of a figure assume it of a
    canvas the caller passes ([own_axes] below), since for a mappable of an
    axes of another figure the version of matplotlib decides which of the
    two figures gets the new axes. *)
Definition fig_colorbar (fig : loc) (cr : mappable) : M unit :=
  fun w =>
    match figures w !! fig with
    | Some f =>
        let cax := length (axes w) in
        (Ok tt,
         set_figures (set_axes w (axes w ++ [[Colorbar cr]]))
           (<[fig := Figure (fig_axes f ++ [cax]) (fig_colorbars f ++ [cr])]>
              (figures w)))
    | None => (Raise (AttributeError msg_no_such_object), w)
    end.

(* ===================================================================== *)
(** * The script: rendering *)
(* ===================================================================== *)

(** [a[idx, :]]: reads [a], makes a new array. *)
Definition index_rows (l : loc) (idx : list nat) : M loc :=
  v ← read_array l;
  sel ← lift (value_take_rows idx v);
  new_value sel.

(** [k * a] for a Python integer [k]. *)
Definition scalar_times (k : Z) (l : loc) : M loc :=
  v ← read_array l;
  new_value (value_times k v).

(** [a / d] for a numpy scalar [d]: a new [float64] array. *)
Definition divided_by (l : loc) (d : scalar) : M loc :=
  v ← read_array l;
  new_array (value_divide v d).

Definition array_max (l : loc) : M scalar :=
  v ← read_array l; lift (value_max v).

Definition array_min (l : loc) : M scalar :=
  v ← read_array l; lift (value_min v).

(** The figure and axes to draw on: the caller's, or new ones. *)
Definition figure_and_axes (figax : option (loc * loc)) : M (loc * loc) :=
  match figax with
  | None =>
      fig ← plt_figure;
      ax ← add_subplot fig;
      mret (fig, ax)
  | Some (fig, ax) => mret (fig, ax)
  end.

(** [plot_magnetization(pos, mag, figax=None)].  The boolean row mask and
    the index array are temporaries and stay values; [del Z] only unbinds a
    name. *)
Definition plot_magnetization (pos mag : loc) (figax : option (loc * loc))
  : M (loc * loc) :=
  fa ← figure_and_axes figax;
  let fig := fa.1 in
  let ax := fa.2 in
  magv ← read_array mag;
  nonzero ← lift (value_any_axis1 magv);
  mask ← lift (tuple_get (np_where nonzero) 0);
  pos ← index_rows pos mask;
  mag ← index_rows mag mask;
  X ← new_view pos (Col 0);
  Y ← new_view pos (Col 1);
  Z ← new_view pos (Col 2);
  Mx ← new_view mag (Col 0);
  My ← new_view mag (Col 1);
  Mz ← new_view mag (Col 2);
  twice ← scalar_times 2 Mz;
  hi ← array_max Mz;
  lo ← array_min Mz;
  color ← divided_by twice (scalar_minus hi lo);
  cr ← ax_scatter ax X Y 1 color;
  _ ← ax_quiver ax X Y Mx My color "xy";
  _ ← fig_colorbar fig cr;
  mret (fig, ax).

(* ===================================================================== *)
(** * The script: entry point *)
(* ===================================================================== *)

(** The default of the [--filename] option. *)
Definition FILENAME : string := "test".

(** [fig.tight_layout()]: the figure is laid out anew; what it holds stays. *)
Definition fig_tight_layout (fig : loc) : M unit :=
  fun w =>
    match figures w !! fig with
    | Some _ => (Ok tt, w)
    | None => (Raise (AttributeError msg_no_such_object), w)
    end.

(** [plt.show()]: the figures are displayed; the world of the script stays. *)
Definition plt_show : M unit := mret tt.

(** [main()], given the value of the [--filename] option when it was
    passed. *)
Definition main (option_filename : option string) : M unit :=
  let filename := default FILENAME option_filename in
  pm ← load_data filename;
  fa ← plot_magnetization pm.1 pm.2 None;
  _ ← fig_tight_layout fa.1;
  plt_show.

(* ===================================================================== *)
(** * Auxiliary definitions for the statements *)
(* ===================================================================== *)

(** Where both loaders end up once the table [a] has been parsed, in a world
    [w] in which the file is already open: the table becomes a new array,
    its shape is checked and the two views are made. *)
Definition split_table (w : world) (a : ndarray float64) : result (loc * loc) * world :=
  let n := length (arrays w) in
  match a with
  | Arr2 c _ =>
      if c =? 6
      then (Ok (S n, S (S n)),
            set_arrays w (arrays w ++ [Owned a; View n [Cols 0 (Some 3)];
                                       View n [Cols 3 None]]))
      else (Raise (ValueError msg_six_columns), set_arrays w (arrays w ++ [Owned a]))
  | _ => (Raise (IndexError msg_tuple_index), set_arrays w (arrays w ++ [Owned a]))
  end.

(** What a caller of a loader gets to see: the entries of the two arrays it
    was handed, or the exception. *)
Definition loaded (out : result (loc * loc) * world)
  : result (ndarray float64 * ndarray float64) :=
  match out with
  | (Ok (pos, mag), w) =>
      result_bind (array_value (arrays w) pos) (fun p =>
      result_bind (array_value (arrays w) mag) (fun m => Ok (p, m)))
  | (Raise e, _) => Raise e
  end.

(** The two halves of a parsed table, as values. *)
Definition table_halves (a : ndarray float64)
  : result (ndarray float64 * ndarray float64) :=
  match a with
  | Arr2 c rows =>
      if c =? 6
      then Ok (Arr2 (slice_width 0 (Some 3) c) (map (slice_row 0 (Some 3)) rows),
               Arr2 (slice_width 3 None c) (map (slice_row 3 None) rows))
      else Raise (ValueError msg_six_columns)
  | _ => Raise (IndexError msg_tuple_index)
  end.

(** Row [i] of a 2-dimensional array. *)
Definition row {A} (a : ndarray A) (i : nat) : option (list A) :=
  match a with
  | Arr2 _ rows => rows !! i
  | _ => None
  end.

(** ** Sites and what is drawn of them *)

(** A component that is not a zero of either sign. *)
Definition nonzero (x : float64) : Prop :=
  x <> S754_zero false /\ x <> S754_zero true.

(** A magnetization with at least one nonzero component. *)
Definition magnetized (m : list float64) : Prop := Exists nonzero m.

(** The sites of row-aligned position and magnetization tables that have a
    magnetization, in order. *)
Definition kept_sites (P Mg : list (list float64))
  : list (list float64 * list float64) :=
  filter (fun pm => magnetized pm.2) (zip P Mg).

(** Column [j] of a table. *)
Definition column (j : nat) (rows : list (list float64)) : list float64 :=
  map (fun r => default F64.nan (r !! j)) rows.

(** The same for [int64] tables. *)
Definition magnetized_int (m : list Z) : Prop := Exists (fun z => z <> 0%Z) m.

Definition column_int (j : nat) (rows : list (list Z)) : list Z :=
  map (fun r => default 0%Z (r !! j)) rows.

(** A 2-dimensional array of [c] columns and [n] rows. *)
Definition is_table {A} (c n : nat) (a : ndarray A) : Prop :=
  match a with
  | Arr2 c' rows =>
      c' = c /\ length rows = n /\ Forall (fun r => length r = c) rows
  | _ => False
  end.

Definition table (c n : nat) (v : ndvalue) : Prop :=
  match v with Floats a => is_table c n a | Ints a => is_table c n a end.

(** ** Greatest and least entries *)

(** What the maximum of [xs] is: NaN when an entry is NaN, and else an
    entry that no entry exceeds. *)
Definition greatest (xs : list float64) (hi : float64) : Prop :=
  hi ∈ xs /\
  if existsb F64.is_nan xs then F64.is_nan hi = true
  else forall x, x ∈ xs -> F64.leb x hi = true.

(** What the minimum of [xs] is. *)
Definition least (xs : list float64) (lo : float64) : Prop :=
  lo ∈ xs /\
  if existsb F64.is_nan xs then F64.is_nan lo = true
  else forall x, x ∈ xs -> F64.leb lo x = true.

Definition greatest_int (xs : list Z) (hi : Z) : Prop :=
  hi ∈ xs /\ forall x, x ∈ xs -> (x <= hi)%Z.

Definition least_int (xs : list Z) (lo : Z) : Prop :=
  lo ∈ xs /\ forall x, x ∈ xs -> (lo <= x)%Z.

(** Two numbers that compare equal: the same number, or the two zeros. *)
Definition same_number (x y : float64) : Prop :=
  x = y \/ exists s s', x = S754_zero s /\ y = S754_zero s'.

(** The place of a number in the order of [SFcompare]: the infinities, the
    finite numbers by sign, exponent and mantissa, and the zeros in the
    middle. *)
Definition rank (x : float64) : Z * Z * Z :=
  match x with
  | S754_infinity true => (-2, 0, 0)%Z
  | S754_finite true m e => (-1, - e, Zneg m)%Z
  | S754_zero _ | S754_nan => (0, 0, 0)%Z
  | S754_finite false m e => (1, e, Zpos m)%Z
  | S754_infinity false => (2, 0, 0)%Z
  end.

Definition lex_le (a b : Z * Z * Z) : Prop :=
  (a.1.1 < b.1.1 \/
   (a.1.1 = b.1.1 /\ (a.1.2 < b.1.2 \/ (a.1.2 = b.1.2 /\ a.2 <= b.2))))%Z.

#[global] Instance lex_le_dec (a b : Z * Z * Z) : Decision (lex_le a b).
Proof. unfold lex_le. apply _. Defined.

Definition lex_compare (a b : Z * Z * Z) : comparison :=
  match (a.1.1 ?= b.1.1)%Z with
  | Eq => match (a.1.2 ?= b.1.2)%Z with
          | Eq => (a.2 ?= b.2)%Z
          | c => c
          end
  | c => c
  end.

(** A figure and an axes to draw on are there, when the caller names them. *)
Definition canvas_ok (figax : option (loc * loc)) (w : world) : Prop :=
  match figax with
  | None => True
  | Some (fig, ax) => is_Some (figures w !! fig) /\ is_Some (axes w !! ax)
  end.


(** The world after [plt.figure()] and [fig.add_subplot(111)]. *)
Definition new_canvas (w : world) : world :=
  World (files w) (trace w) (arrays w)
        (axes w ++ [[]]) (figures w ++ [Figure [length (axes w)] []]).

(** No computation takes an array object away or changes one. *)
Definition array_stable {A} (m : M A) : Prop :=
  forall w, arrays w `prefix_of` arrays (m w).2.

(** The array objects [plot_magnetization] has made, for the kept [sites]
    and with [n] array objects there before, by the time it takes the
    maximum: the two filtered tables, the six column views and [2 * Mz]. *)
Definition filtered_objects (n : nat) (sites : list (list float64 * list float64))
  : list array_obj :=
  [ Owned (Arr2 3 sites.*1); Owned (Arr2 3 sites.*2);
    View n [Col 0]; View n [Col 1]; View n [Col 2];
    View (n + 1) [Col 0]; View (n + 1) [Col 1]; View (n + 1) [Col 2];
    Owned (Arr1 (map (F64.mul (F64.of_Z 2)) (column 2 sites.*2))) ].

(** The same for arrays of either dtype: the two filtered tables [vp] and
    [vm] and the product [twice]. *)
Definition made_objects (n : nat) (vp vm twice : ndvalue) : list array_obj :=
  [ object_of vp; object_of vm;
    View n [Col 0]; View n [Col 1]; View n [Col 2];
    View (n + 1) [Col 0]; View (n + 1) [Col 1]; View (n + 1) [Col 2];
    object_of twice ].

(** The colour of each site, from the out-of-plane components [Mz] and the
    denominator [d]. *)
Definition colors (Mz : list float64) (d : float64) : list float64 :=
  map (fun x => F64.div x d) (map (F64.mul (F64.of_Z 2)) Mz).

(** The colours of [int64] components [Mz] with maximum [hi] and minimum
    [lo]: product and difference are taken in [int64], the division in
    binary64. *)
Definition colors_int (Mz : list Z) (hi lo : Z) : list float64 :=
  map (fun m => F64.div (F64.of_Z (I64.mul 2 m)) (F64.of_Z (I64.sub hi lo))) Mz.

(** The two artists drawn for the kept [sites]. *)
Definition drawn (sites : list (list float64 * list float64)) (d : float64)
  : list artist :=
  let C := colors (column 2 sites.*2) d in
  [ PathCollection (column 0 sites.*1) (column 1 sites.*1) 1 C;
    QuiverArtist (column 0 sites.*1) (column 1 sites.*1)
                 (column 0 sites.*2) (column 1 sites.*2) C "xy" ].

(** ** Example inputs *)

Definition num (z : Z) : float64 := F64.of_Z z.

Definition empty_world (fs : gmap string records) : world := World fs [] [] [] [].

(** Two sites, comma separated. *)
Definition csv_world : world :=
  empty_world {[ "sites.csv" := [ [num 1; num 2; num 3; num 4; num 5; num 6];
                                  [num 7; num 8; num 9; num 0; num 0; num 1] ] ]}.

(** An OOMF export of two sites, and exports of a single line. *)
Definition oomf_world : world :=
  empty_world
    (<[ "data" := [ [num 1; num 2; num 3; num 4; num 5; num 6];
                    [num 7; num 8; num 9; num 0; num 0; num 1] ] ]>
     (<[ "one" := [ [num 1; num 2; num 3; num 4; num 5; num 6] ] ]>
      (<[ "five" := [ [num 1; num 2; num 3; num 4; num 5] ] ]>
       (<[ "column" := [ [num 1]; [num 2]; [num 3] ] ]> ∅)))).

Definition empty_canvas (objs : list array_obj) : world := World ∅ [] objs [] [].


(** Three sites with out-of-plane components 1, 3 and 5. *)
Definition graded_world : world :=
  empty_canvas
    [ Owned (Arr2 3 [ [num 0; num 0; num 0]; [num 1; num 1; num 0]; [num 2; num 2; num 0] ]);
      Owned (Arr2 3 [ [num 1; num 0; num 1]; [num 0; num 1; num 3]; [num 0; num 0; num 5] ]) ].


(** The same three sites as [int64] arrays. *)
Definition graded_int_world : world :=
  empty_canvas
    [ OwnedInt (Arr2 3 [ [0; 0; 0]; [1; 1; 0]; [2; 2; 0] ]%Z);
      OwnedInt (Arr2 3 [ [1; 0; 1]; [0; 1; 3]; [0; 0; 5] ]%Z) ].

(** Two sites whose out-of-plane components are [2^62] and [0], as [int64]
    arrays: twice the first one is out of range. *)
Definition steep_int_world : world :=
  empty_canvas
    [ OwnedInt (Arr2 3 [ [0; 0; 0]; [1; 1; 0] ]%Z);
      OwnedInt (Arr2 3 [ [0; 0; 2 ^ 62]; [1; 0; 0] ]%Z) ].

(** Files at the edges: nothing but a blank line, lines of unequal
    length, and a comma-separated file with a short and with a long line. *)
Definition edge_world : world :=
  empty_world
    (<[ "empty" := [ [] ] ]>
     (<[ "empty.csv" := [ [] ] ]>
      (<[ "ragged" := [ [num 1; num 2; num 3; num 4; num 5; num 6];
                        [num 7; num 8; num 9] ] ]>
       (<[ "short.csv" := [ [num 1; num 2; num 3; num 4; num 5; num 6];
                            [num 7; num 8; num 9; num 1] ] ]>
        (<[ "long.csv" := [ [num 1; num 2; num 3; num 4; num 5; num 6];
                            [num 7; num 8; num 9; num 1; num 1; num 1; num 1] ] ]>
         ∅))))).

(** ** The canvas of a call *)

(** The world [plot_magnetization] draws in: the caller's, or the caller's
    with a new figure and axes. *)
Definition canvas_of (figax : option (loc * loc)) (w : world) : world :=
  match figax with
  | None => new_canvas w
  | Some _ => w
  end.

(** The figure and the axes it draws on. *)
Definition handles (figax : option (loc * loc)) (w : world) : loc * loc :=
  match figax with
  | None => (length (figures w), length (axes w))
  | Some fa => fa
  end.

(** From [w] to [w'] nothing was printed, no file was opened or changed, no
    figure was added, and every axes and figure has kept what it held:
    artists, and the axes and colorbars of a figure, were at most added at
    the end. *)
Definition canvas_grows (w w' : world) : Prop :=
  files w' = files w /\ trace w' = trace w /\
  length (figures w') = length (figures w) /\
  (forall ax arts, axes w !! ax = Some arts ->
     exists more, axes w' !! ax = Some (arts ++ more)) /\
  (forall fig f, figures w !! fig = Some f ->
     exists more_axes more_bars,
       figures w' !! fig =
         Some (Figure (fig_axes f ++ more_axes) (fig_colorbars f ++ more_bars))).

Definition keeps_canvas {A} (m : M A) : Prop :=
  forall w, canvas_grows w (m w).2.

(** A computation that leaves at most [k] more axes than there were. *)
Definition adds_axes {A} (k : nat) (m : M A) : Prop :=
  forall w, length (axes (m w).2) <= length (axes w) + k.

(* ===================================================================== *)
(** * Running computations *)
(* ===================================================================== *)

Lemma bind_run {A B} (m : M A) (k : A -> M B) (w : world) :
  (m ≫= k) w =
  match m w with
  | (Ok a, w') => k a w'
  | (Raise e, w') => (Raise e, w')
  end.
Proof. reflexivity. Qed.

Lemma lookup_new {A} (σ : list A) (o : A) (rest : list A) :
  (σ ++ o :: rest) !! length σ = Some o.
Proof. by rewrite list_lookup_middle. Qed.

Lemma array_value_new (σ : list array_obj) (a : ndarray float64) (rest : list array_obj) :
  array_value (σ ++ Owned a :: rest) (length σ) = Ok a.
Proof. unfold array_value, array_data. by rewrite lookup_new. Qed.

Lemma array_data_new (σ : list array_obj) (a : ndarray float64) (rest : list array_obj) :
  array_data (σ ++ Owned a :: rest) (length σ) = Ok (Floats a).
Proof. unfold array_data. by rewrite lookup_new. Qed.

(** Reading a [float64] array, or an [int64] array, is reading an array. *)
Lemma array_data_float (σ : list array_obj) (l : loc) (a : ndarray float64) :
  array_value σ l = Ok a -> array_data σ l = Ok (Floats a).
Proof.
  unfold array_value. destruct (array_data σ l) as [[a'|a']|e]; congruence.
Qed.

Lemma array_data_int (σ : list array_obj) (l : loc) (a : ndarray Z) :
  array_ints σ l = Ok a -> array_data σ l = Ok (Ints a).
Proof.
  unfold array_ints. destruct (array_data σ l) as [[a'|a']|e]; congruence.
Qed.

Lemma lift_run {A} (r : result A) (w : world) : lift r w = (r, w).
Proof. reflexivity. Qed.

Lemma raise_run {A} (e : exn) (w : world) : @raise A e w = (Raise e, w).
Proof. reflexivity. Qed.

Lemma ret_run {A} (a : A) (w : world) : (mret a : M A) w = (Ok a, w).
Proof. reflexivity. Qed.

(** One step of symbolic execution: push the world through the binds and
    project the fields of the worlds that come out. *)
Ltac run :=
  repeat (rewrite ?bind_run, ?lift_run, ?raise_run, ?ret_run;
          cbn [arrays files trace axes figures set_arrays set_trace set_axes
               set_figures logged fst snd]).

Lemma lookup_app_plus {A} (σ news : list A) (k : nat) :
  (σ ++ news) !! (length σ + k) = news !! k.
Proof. rewrite lookup_app_r by lia. f_equal. lia. Qed.

Lemma array_data_mono (σ σ' : list array_obj) (l : loc) (v : ndvalue) :
  array_data σ l = Ok v -> array_data (σ ++ σ') l = Ok v.
Proof.
  unfold array_data. intros H.
  destruct (σ !! l) as [o|] eqn:Hl; [|discriminate].
  rewrite (lookup_app_l_Some _ _ _ _ Hl).
  destruct o as [a'|b ixs|a']; [exact H| |exact H].
  destruct (σ !! b) as [o|] eqn:Hb; [|discriminate].
  by rewrite (lookup_app_l_Some _ _ _ _ Hb).
Qed.

Lemma array_value_mono (σ σ' : list array_obj) (l : loc) (a : ndarray float64) :
  array_value σ l = Ok a -> array_value (σ ++ σ') l = Ok a.
Proof.
  intros H%array_data_float. unfold array_value.
  by rewrite (array_data_mono _ _ _ _ H).
Qed.

Lemma array_data_owned (σ news : list array_obj) (k : nat) (v : ndvalue) :
  news !! k = Some (object_of v) ->
  array_data (σ ++ news) (length σ + k) = Ok v.
Proof.
  intros H. unfold array_data. rewrite lookup_app_plus, H. by destruct v.
Qed.

Lemma array_data_view (σ news : list array_obj) (k b j : nat) (ix : index2)
    (v : ndvalue) :
  news !! k = Some (View b [ix]) ->
  b = length σ + j ->
  news !! j = Some (object_of v) ->
  array_data (σ ++ news) (length σ + k) = value_index2 ix v.
Proof.
  intros Hk -> Hj. unfold array_data.
  rewrite lookup_app_plus, Hk, lookup_app_plus, Hj. by destruct v.
Qed.

Lemma array_value_owned (σ news : list array_obj) (k : nat) (a : ndarray float64) :
  news !! k = Some (Owned a) ->
  array_value (σ ++ news) (length σ + k) = Ok a.
Proof.
  intros H. unfold array_value. by rewrite (array_data_owned _ _ _ (Floats a)).
Qed.

Lemma array_value_view (σ news : list array_obj) (k b j : nat) (ix : index2)
    (a : ndarray float64) :
  news !! k = Some (View b [ix]) ->
  b = length σ + j ->
  news !! j = Some (Owned a) ->
  array_value (σ ++ news) (length σ + k) = apply_index2 ix a.
Proof.
  intros Hk Hb Hj. unfold array_value.
  rewrite (array_data_view _ _ _ _ _ _ (Floats a) Hk Hb Hj). cbn [value_index2].
  by destruct (apply_index2 ix a).
Qed.

(** ** The loaders, run *)

Lemma split_run (w : world) (a : ndarray float64) :
  (data ← new_array a;
   sh ← shape_of data;
   ncols ← lift (tuple_get sh 1);
   if negb (ncols =? 6)
   then raise (ValueError msg_six_columns)
   else
     pos ← new_view data (Cols 0 (Some 3));
     mag ← new_view data (Cols 3 None);
     mret (pos, mag)) w = split_table w a.
Proof.
  unfold split_table, new_array, alloc_array, shape_of, read_array.
  run. rewrite (array_data_new _ a []).
  destruct a as [x|xs|c rows]; try reflexivity.
  run. cbn [value_shape shape tuple_get lookup list_lookup]. run.
  destruct (c =? 6) eqn:Hc; cbn [negb]; run; [|reflexivity].
  unfold new_view, read_array, view_on, alloc_array. run.
  rewrite (array_data_new _ _ []). cbn [value_index2 apply_index2 result_map]. run.
  rewrite (lookup_new _ _ []). run.
  rewrite <- app_assoc. cbn [app].
  rewrite array_data_new. cbn [value_index2 apply_index2 result_map]. run.
  rewrite lookup_new. run.
  rewrite <- app_assoc. cbn [app].
  rewrite !length_app. cbn [length].
  repeat f_equal; lia.
Qed.

Lemma load_oomf_run (filename : string) (w : world) :
  load_oomf filename w =
  match files w !! filename with
  | None => (Raise (FileNotFoundError filename), w)
  | Some recs =>
      match loadtxt_array recs with
      | Ok a => split_table (logged (Opened filename) w) a
      | Raise e => (Raise e, logged (Opened filename) w)
      end
  end.
Proof.
  unfold load_oomf, np_loadtxt, find_file, read_file, file_contents, emit. run.
  destruct (files w !! filename) as [recs|] eqn:Hfile; [|reflexivity].
  run. rewrite Hfile. run.
  destruct (loadtxt_array recs) as [a|e]; [|reflexivity].
  rewrite <- split_run. run. reflexivity.
Qed.

Lemma load_csv_run (filename : string) (w : world) :
  load_csv filename false w =
  if String.eqb (py_suffix 4 filename) ".csv" then
    match files w !! filename with
    | None => (Raise (FileNotFoundError filename), logged (Opened filename) w)
    | Some recs =>
        match read_csv_frame HeaderNone recs with
        | Ok df => split_table (logged (Opened filename) w)
                     (Arr2 (df_columns df) (df_values df))
        | Raise e => (Raise e, logged (Opened filename) w)
        end
    end
  else (Raise (ValueError msg_not_csv), w).
Proof.
  unfold load_csv.
  destruct (String.eqb (py_suffix 4 filename) ".csv"); cbn [negb]; [|reflexivity].
  unfold pd_read_csv, np_array, read_file, file_contents, emit. run.
  destruct (files w !! filename) as [recs|]; [|reflexivity]. run.
  destruct (read_csv_frame HeaderNone recs) as [df|e]; [|reflexivity].
  rewrite <- split_run. run. reflexivity.
Qed.

Lemma load_data_run (filename : string) (w : world) :
  load_data filename w =
  let w1 := logged (Printed ("loading " +:+ filename +:+ " ...")) w in
  if py_in "." (py_suffix 5 filename)
  then
    if String.eqb (py_suffix 4 filename) ".csv"
    then load_csv filename false w1
    else (Raise (ValueError (msg_invalid_extension filename)), w1)
  else load_oomf filename w1.
Proof.
  unfold load_data, print, emit. run. cbv zeta.
  destruct (py_in "." (py_suffix 5 filename)); [|reflexivity].
  destruct (String.eqb (py_suffix 4 filename) ".csv"); reflexivity.
Qed.

Lemma loaded_split_table (w : world) (a : ndarray float64) :
  loaded (split_table w a) = table_halves a.
Proof.
  unfold split_table, table_halves, loaded.
  destruct a as [x|xs|c rows]; try reflexivity.
  destruct (c =? 6); [|reflexivity].
  cbn [arrays set_arrays].
  change (S (length (arrays w))) with (1 + length (arrays w)).
  change (S (1 + length (arrays w))) with (2 + length (arrays w)).
  rewrite !(Nat.add_comm _ (length (arrays w))).
  rewrite (array_value_view _ _ 1 _ 0 (Cols 0 (Some 3)) (Arr2 c rows))
    by (reflexivity || lia).
  rewrite (array_value_view _ _ 2 _ 0 (Cols 3 None) (Arr2 c rows))
    by (reflexivity || lia).
  reflexivity.
Qed.

Lemma files_split_table (w : world) (a : ndarray float64) :
  files (split_table w a).2 = files w.
Proof.
  unfold split_table. destruct a as [x|xs|c rows]; try reflexivity.
  destruct (c =? 6); reflexivity.
Qed.

Lemma arrays_split_table (w : world) (a : ndarray float64) :
  arrays w `prefix_of` arrays (split_table w a).2.
Proof.
  unfold split_table. destruct a as [x|xs|c rows]; try apply prefix_app_r, reflexivity.
  destruct (c =? 6); apply prefix_app_r; reflexivity.
Qed.

Lemma trace_split_table (w : world) (a : ndarray float64) :
  trace (split_table w a).2 = trace w.
Proof.
  unfold split_table. destruct a as [x|xs|c rows]; try reflexivity.
  destruct (c =? 6); reflexivity.
Qed.

(** What the caller sees of a load is a function of the file's records. *)
Lemma loaded_load_oomf (filename : string) (w : world) :
  loaded (load_oomf filename w) =
  match files w !! filename with
  | None => Raise (FileNotFoundError filename)
  | Some recs => result_bind (loadtxt_array recs) table_halves
  end.
Proof.
  rewrite load_oomf_run.
  destruct (files w !! filename) as [recs|]; [|reflexivity].
  destruct (loadtxt_array recs) as [a|e]; [|reflexivity].
  apply loaded_split_table.
Qed.

Lemma loaded_load_csv (filename : string) (w : world) :
  loaded (load_csv filename false w) =
  if String.eqb (py_suffix 4 filename) ".csv" then
    match files w !! filename with
    | None => Raise (FileNotFoundError filename)
    | Some recs =>
        result_bind (read_csv_frame HeaderNone recs)
          (fun df => table_halves (Arr2 (df_columns df) (df_values df)))
    end
  else Raise (ValueError msg_not_csv).
Proof.
  rewrite load_csv_run.
  destruct (String.eqb (py_suffix 4 filename) ".csv"); [|reflexivity].
  destruct (files w !! filename) as [recs|]; [|reflexivity].
  destruct (read_csv_frame HeaderNone recs) as [df|e]; [|reflexivity].
  apply loaded_split_table.
Qed.

Lemma loaded_load_data (filename : string) (w : world) :
  loaded (load_data filename w) =
  if py_in "." (py_suffix 5 filename)
  then
    if String.eqb (py_suffix 4 filename) ".csv"
    then loaded (load_csv filename false w)
    else Raise (ValueError (msg_invalid_extension filename))
  else loaded (load_oomf filename w).
Proof.
  rewrite load_data_run. cbv zeta.
  destruct (py_in "." (py_suffix 5 filename)).
  - destruct (String.eqb (py_suffix 4 filename) ".csv") eqn:E; [|reflexivity].
    rewrite !loaded_load_csv. reflexivity.
  - rewrite !loaded_load_oomf. reflexivity.
Qed.

(** A load leaves the files alone and only adds array objects. *)
Lemma load_oomf_frame (filename : string) (w : world) :
  files (load_oomf filename w).2 = files w /\
  arrays w `prefix_of` arrays (load_oomf filename w).2.
Proof.
  rewrite load_oomf_run.
  destruct (files w !! filename) as [recs|]; [|by split].
  destruct (loadtxt_array recs) as [a|e]; [|by split].
  split; [by rewrite files_split_table | apply (arrays_split_table (logged _ w))].
Qed.

Lemma load_csv_frame (filename : string) (w : world) :
  files (load_csv filename false w).2 = files w /\
  arrays w `prefix_of` arrays (load_csv filename false w).2.
Proof.
  rewrite load_csv_run.
  destruct (String.eqb (py_suffix 4 filename) ".csv"); [|by split].
  destruct (files w !! filename) as [recs|]; [|by split].
  destruct (read_csv_frame HeaderNone recs) as [df|e]; [|by split].
  split; [by rewrite files_split_table | apply (arrays_split_table (logged _ w))].
Qed.

Lemma load_data_frame (filename : string) (w : world) :
  files (load_data filename w).2 = files w /\
  arrays w `prefix_of` arrays (load_data filename w).2.
Proof.
  rewrite load_data_run. cbv zeta.
  destruct (py_in "." (py_suffix 5 filename)).
  - destruct (String.eqb (py_suffix 4 filename) ".csv"); [|by split].
    apply (load_csv_frame filename (logged _ w)).
  - apply (load_oomf_frame filename (logged _ w)).
Qed.

(** ** Parsing well-formed tables *)

Lemma nonblank_id (recs : records) :
  Forall (fun r => r <> []) recs -> nonblank recs = recs.
Proof.
  unfold nonblank. induction 1 as [|r recs Hr _ IH]; [reflexivity|].
  rewrite filter_cons_True by (by destruct r). by rewrite IH.
Qed.

Lemma six_fields_nonblank (recs : records) :
  Forall (fun r => length r = 6) recs -> Forall (fun r => r <> []) recs.
Proof.
  intros H. eapply Forall_impl; [exact H|]. intros r Hr ->. discriminate.
Qed.

Lemma pad_row_full (width : nat) (r : list float64) :
  length r = width -> pad_row width r = r.
Proof.
  intros <-. unfold pad_row. rewrite Nat.sub_diag. cbn. apply app_nil_r.
Qed.

Lemma frame_rows_full (width : nat) (recs : records) :
  Forall (fun r => length r = width) recs -> frame_rows width recs = Ok recs.
Proof.
  intros H. unfold frame_rows.
  assert (forallb (fun r => length r <=? width) recs = true) as ->.
  { apply forallb_forall. intros r Hr%list_elem_of_In.
    rewrite Forall_forall in H. apply Nat.leb_le. by rewrite (H r Hr). }
  f_equal. induction H as [|r recs Hr _ IH]; [reflexivity|].
  cbn [map]. by rewrite pad_row_full, IH.
Qed.

Lemma read_csv_frame_six (recs : records) :
  recs <> [] ->
  Forall (fun r => length r = 6) recs ->
  read_csv_frame HeaderNone recs = Ok (Frame 6 recs).
Proof.
  intros Hne H. unfold read_csv_frame.
  rewrite (nonblank_id recs) by by apply six_fields_nonblank.
  destruct recs as [|r rest]; [done|].
  assert (length r = 6) as -> by by inversion H.
  by rewrite frame_rows_full.
Qed.

Lemma loadtxt_array_six (recs : records) :
  2 <= length recs ->
  Forall (fun r => length r = 6) recs ->
  loadtxt_array recs = Ok (Arr2 6 recs).
Proof.
  intros Hlen H. unfold loadtxt_array.
  rewrite (nonblank_id recs) by by apply six_fields_nonblank.
  destruct recs as [|r [|r' rest]]; cbn [length] in Hlen; try lia.
  assert (length r = 6) as Hr by by inversion H.
  assert (forallb (fun r0 => length r0 =? length r) (r' :: rest) = true) as ->.
  { apply forallb_forall. intros r0 Hr0%list_elem_of_In.
    rewrite Forall_forall in H. apply Nat.eqb_eq.
    rewrite Hr. apply H. by right. }
  rewrite Hr. by destruct r as [|x [|y r]].
Qed.

(** One record: the table is squeezed to less than two dimensions. *)
Lemma loadtxt_array_single (r : list float64) :
  exists a, loadtxt_array [r] = Ok a /\ length (shape a) < 2 /\
            (length r <> 1 -> a = Arr1 r).
Proof.
  unfold loadtxt_array, nonblank.
  destruct r as [|x [|y r]].
  - exists (Arr1 []). cbn. eauto.
  - exists (Arr0 x). cbn. split; [done|]. split; [lia|done].
  - exists (Arr1 (x :: y :: r)). cbn. eauto.
Qed.

(** ** File names *)

Lemma length_list_ascii (s : string) :
  length (list_ascii_of_string s) = String.length s.
Proof. induction s as [|c s IH]; cbn; [reflexivity|]. by rewrite IH. Qed.

Lemma substring_list (a n : nat) (s : string) :
  list_ascii_of_string (String.substring a n s) =
  take n (drop a (list_ascii_of_string s)).
Proof.
  revert a n. induction s as [|c s IH]; intros [|a] [|n]; cbn; try reflexivity.
  - by rewrite IH.
  - by rewrite IH.
  - by rewrite IH.
Qed.

Lemma py_suffix_list (n : nat) (s : string) :
  list_ascii_of_string (py_suffix n s) =
  drop (String.length s - n) (list_ascii_of_string s).
Proof.
  unfold py_suffix. rewrite substring_list.
  apply take_ge. rewrite length_drop, length_list_ascii. lia.
Qed.

Lemma py_in_list (c : ascii) (s : string) :
  py_in c s = true <-> c ∈ list_ascii_of_string s.
Proof.
  induction s as [|a s IH]; cbn.
  - split; [discriminate|]. by intros ?%elem_of_nil.
  - rewrite elem_of_cons. destruct (Ascii.eqb_spec c a) as [->|Hne].
    + split; auto.
    + rewrite IH. split; [auto|]. by intros [?|?].
Qed.

(** A name that ends in [.csv] has a dot among its last five characters. *)
Lemma csv_suffix_has_dot (filename : string) :
  py_suffix 4 filename = ".csv" -> py_in "." (py_suffix 5 filename) = true.
Proof.
  intros H. apply py_in_list.
  apply (f_equal list_ascii_of_string) in H.
  rewrite py_suffix_list in *.
  set (l := list_ascii_of_string filename) in *.
  set (n := String.length filename) in *.
  assert (drop (n - 4) l = drop (n - 4 - (n - 5)) (drop (n - 5) l)) as E.
  { rewrite drop_drop. f_equal. lia. }
  rewrite E in H. eapply subseteq_drop. rewrite H. cbn. apply list_elem_of_here.
Qed.

(* ===================================================================== *)
(** * Loading: the properties *)
(* ===================================================================== *)

Lemma lookup_map {A B} (f : A -> B) (l : list A) (i : nat) :
  map f l !! i = f <$> l !! i.
Proof.
  revert i. induction l as [|x l IH]; intros [|i]; cbn; try reflexivity. apply IH.
Qed.

(** The halves of a table of six columns: shapes and rows. *)
Lemma table_halves_six (recs : records) :
  exists P Mg,
    table_halves (Arr2 6 recs) = Ok (P, Mg) /\
    shape P = [length recs; 3] /\ shape Mg = [length recs; 3] /\
    (forall i r, recs !! i = Some r ->
       row P i = Some (take 3 r) /\ row Mg i = Some (drop 3 r)) /\
    len P = len Mg.
Proof.
  eexists _, _. split; [reflexivity|].
  cbn [shape len row]. rewrite !length_map.
  repeat split; try reflexivity.
  - rewrite lookup_map, H. reflexivity.
  - rewrite lookup_map, H. reflexivity.
  - unfold len. cbn [shape]. by rewrite !length_map.
Qed.

(** C1.  A comma-separated file of [N >= 1] records of six fields each,
    read without a header, loads as a position array and a magnetization
    array of shape [(N, 3)]: row [i] of the first is fields 0-2 of record
    [i], row [i] of the second is fields 3-5; the two have equal length.
    This holds for [load_csv] and for [load_data], which dispatches to it. *)
Theorem load_csv_splits_columns (filename : string) (w : world) (recs : records) :
  py_suffix 4 filename = ".csv" ->
  files w !! filename = Some recs ->
  recs <> [] ->
  Forall (fun r => length r = 6) recs ->
  exists P Mg,
    loaded (load_csv filename false w) = Ok (P, Mg) /\
    loaded (load_data filename w) = Ok (P, Mg) /\
    shape P = [length recs; 3] /\ shape Mg = [length recs; 3] /\
    (forall i r, recs !! i = Some r ->
       row P i = Some (take 3 r) /\ row Mg i = Some (drop 3 r)) /\
    len P = len Mg.
Proof.
  intros Hcsv Hfile Hne Hsix.
  destruct (table_halves_six recs) as (P & Mg & Hh & HP & HM & Hrows & Hlen).
  assert (loaded (load_csv filename false w) = Ok (P, Mg)) as Hload.
  { rewrite loaded_load_csv, Hcsv, Hfile, String.eqb_refl.
    rewrite read_csv_frame_six by done. exact Hh. }
  exists P, Mg. split; [exact Hload|]. split; [|done].
  rewrite loaded_load_data, (csv_suffix_has_dot _ Hcsv), Hcsv, String.eqb_refl.
  exact Hload.
Qed.

Lemma load_csv_splits_columns_witness :
  exists P Mg,
    loaded (load_csv "sites.csv" false csv_world) = Ok (P, Mg) /\
    loaded (load_data "sites.csv" csv_world) = Ok (P, Mg) /\
    shape P = [2; 3] /\ shape Mg = [2; 3] /\
    (forall i r,
       [ [num 1; num 2; num 3; num 4; num 5; num 6];
         [num 7; num 8; num 9; num 0; num 0; num 1] ] !! i = Some r ->
       row P i = Some (take 3 r) /\ row Mg i = Some (drop 3 r)) /\
    len P = len Mg.
Proof.
  apply (load_csv_splits_columns "sites.csv" csv_world
           [ [num 1; num 2; num 3; num 4; num 5; num 6];
             [num 7; num 8; num 9; num 0; num 0; num 1] ]).
  - reflexivity.
  - reflexivity.
  - discriminate.
  - repeat constructor.
Defined.

(** C3.  A name with a dot among its last five characters that does not end
    in [.csv] makes [load_data] raise the [ValueError] that names the file;
    nothing but the progress line has happened by then, so no file was
    opened. *)
Theorem load_data_invalid_extension (filename : string) (w : world) :
  py_in "." (py_suffix 5 filename) = true ->
  py_suffix 4 filename <> ".csv" ->
  load_data filename w =
    (Raise (ValueError (filename +:+ " has an invalid extension.")),
     logged (Printed ("loading " +:+ filename +:+ " ...")) w) /\
  trace (load_data filename w).2 =
    trace w ++ [Printed ("loading " +:+ filename +:+ " ...")] /\
  Opened filename ∉ drop (length (trace w)) (trace (load_data filename w).2).
Proof.
  intros Hdot Hcsv.
  assert (load_data filename w =
    (Raise (ValueError (filename +:+ " has an invalid extension.")),
     logged (Printed ("loading " +:+ filename +:+ " ...")) w)) as E.
  { rewrite load_data_run, Hdot. cbv zeta.
    apply String.eqb_neq in Hcsv. by rewrite Hcsv. }
  rewrite E. cbn [snd logged set_trace trace]. repeat split.
  rewrite drop_app_length. intros H%list_elem_of_singleton. discriminate.
Qed.

Lemma load_data_invalid_extension_witness :
  load_data "data.xyz" csv_world =
    (Raise (ValueError "data.xyz has an invalid extension."),
     logged (Printed "loading data.xyz ...") csv_world) /\
  trace (load_data "data.xyz" csv_world).2 =
    trace csv_world ++ [Printed "loading data.xyz ..."] /\
  Opened "data.xyz" ∉
    drop (length (trace csv_world)) (trace (load_data "data.xyz" csv_world).2).
Proof.
  apply (load_data_invalid_extension "data.xyz" csv_world).
  - reflexivity.
  - discriminate.
Defined.

(** C4.  A name without a dot among its last five characters is loaded by
    [load_oomf]; when the file holds at least two records of six fields
    each, the load succeeds with the position and magnetization halves. *)
Theorem load_data_whitespace_mode (filename : string) (w : world) (recs : records) :
  py_in "." (py_suffix 5 filename) = false ->
  load_data filename w =
    load_oomf filename (logged (Printed ("loading " +:+ filename +:+ " ...")) w) /\
  (files w !! filename = Some recs ->
   2 <= length recs ->
   Forall (fun r => length r = 6) recs ->
   exists P Mg,
     loaded (load_data filename w) = Ok (P, Mg) /\
     shape P = [length recs; 3] /\ shape Mg = [length recs; 3] /\
     (forall i r, recs !! i = Some r ->
        row P i = Some (take 3 r) /\ row Mg i = Some (drop 3 r)) /\
     len P = len Mg).
Proof.
  intros Hdot. split.
  { rewrite load_data_run, Hdot. reflexivity. }
  intros Hfile Hlen Hsix.
  destruct (table_halves_six recs) as (P & Mg & Hh & Hrest).
  exists P, Mg. split; [|exact Hrest].
  rewrite loaded_load_data, Hdot, loaded_load_oomf, Hfile.
  rewrite loadtxt_array_six by done. exact Hh.
Qed.

Lemma load_data_whitespace_mode_witness :
  load_data "data" oomf_world =
    load_oomf "data" (logged (Printed "loading data ...") oomf_world) /\
  exists P Mg,
    loaded (load_data "data" oomf_world) = Ok (P, Mg) /\
    shape P = [2; 3] /\ shape Mg = [2; 3] /\
    (forall i r,
       [ [num 1; num 2; num 3; num 4; num 5; num 6];
         [num 7; num 8; num 9; num 0; num 0; num 1] ] !! i = Some r ->
       row P i = Some (take 3 r) /\ row Mg i = Some (drop 3 r)) /\
    len P = len Mg.
Proof.
  destruct (load_data_whitespace_mode "data" oomf_world
              [ [num 1; num 2; num 3; num 4; num 5; num 6];
                [num 7; num 8; num 9; num 0; num 0; num 1] ]) as [Hd Hl].
  - reflexivity.
  - split; [exact Hd|]. apply Hl.
    + reflexivity.
    + cbn. lia.
    + repeat constructor.
Defined.

(** The column check does what it says whenever the array has two
    dimensions: always after [pd.read_csv], and after [np.loadtxt] when
    the table was not squeezed. *)
Lemma load_csv_wrong_width (filename : string) (w : world) (recs : records)
    (df : DataFrame) :
  py_suffix 4 filename = ".csv" ->
  files w !! filename = Some recs ->
  read_csv_frame HeaderNone recs = Ok df ->
  df_columns df <> 6 ->
  (load_csv filename false w).1 = Raise (ValueError msg_six_columns).
Proof.
  intros Hcsv Hfile Hdf Hc.
  rewrite load_csv_run, Hcsv, Hfile, Hdf, String.eqb_refl.
  unfold split_table. apply Nat.eqb_neq in Hc. by rewrite Hc.
Qed.

Lemma load_oomf_wrong_width (filename : string) (w : world) (recs : records)
    (c : nat) (rows : list (list float64)) :
  files w !! filename = Some recs ->
  loadtxt_array recs = Ok (Arr2 c rows) ->
  c <> 6 ->
  (load_oomf filename w).1 = Raise (ValueError msg_six_columns).
Proof.
  intros Hfile Ha Hc. rewrite load_oomf_run, Hfile, Ha.
  unfold split_table. apply Nat.eqb_neq in Hc. by rewrite Hc.
Qed.

(** C2, where the script departs from it.  An extension-less file of one
    line of five fields, or of three lines of one field each, is parsed to
    a 1-dimensional array; the column check then raises [IndexError] on
    [shape[1]] and never gets to raise its own [ValueError]. *)
Theorem load_data_squeezed_table_IndexError :
  (load_data "five" oomf_world).1 = Raise (IndexError msg_tuple_index) /\
  (load_data "column" oomf_world).1 = Raise (IndexError msg_tuple_index) /\
  (load_data "five" oomf_world).1 <> Raise (ValueError msg_six_columns).
Proof. repeat split; [vm_compute; reflexivity..|discriminate]. Qed.

(** C10.  An extension-less file of exactly one record is parsed to an
    array of fewer than two dimensions (the record itself, as a
    1-dimensional array, when it has more than one field), and loading
    raises [IndexError] at [shape[1]], whatever the number of fields, six
    included. *)
Theorem load_oomf_single_row (filename : string) (w : world) (r : list float64) :
  py_in "." (py_suffix 5 filename) = false ->
  files w !! filename = Some [r] ->
  (exists a, loadtxt_array [r] = Ok a /\ length (shape a) < 2 /\
             (length r <> 1 -> a = Arr1 r)) /\
  (load_oomf filename w).1 = Raise (IndexError msg_tuple_index) /\
  (load_data filename w).1 = Raise (IndexError msg_tuple_index).
Proof.
  intros Hdot Hfile.
  destruct (loadtxt_array_single r) as (a & Ha & Hdim & Hrow).
  split; [by exists a|].
  assert (forall w', files w' !! filename = Some [r] ->
            (load_oomf filename w').1 = Raise (IndexError msg_tuple_index)) as Hoomf.
  { intros w' Hf. rewrite load_oomf_run, Hf, Ha. unfold split_table.
    destruct a as [x|xs|c rows]; [reflexivity..|]. cbn in Hdim. lia. }
  split; [by apply Hoomf|].
  rewrite load_data_run, Hdot. cbv zeta. by apply Hoomf.
Qed.

Lemma load_oomf_single_row_witness :
  (exists a, loadtxt_array [ [num 1; num 2; num 3; num 4; num 5; num 6] ] = Ok a /\
             length (shape a) < 2 /\
             (length [num 1; num 2; num 3; num 4; num 5; num 6] <> 1 ->
              a = Arr1 [num 1; num 2; num 3; num 4; num 5; num 6])) /\
  (load_oomf "one" oomf_world).1 = Raise (IndexError msg_tuple_index) /\
  (load_data "one" oomf_world).1 = Raise (IndexError msg_tuple_index).
Proof.
  apply (load_oomf_single_row "one" oomf_world
           [num 1; num 2; num 3; num 4; num 5; num 6]).
  - reflexivity.
  - reflexivity.
Defined.

(** C8.  Loading the same file twice in a row: the first load leaves the
    files as they were, the second one hands out arrays with the same
    entries as the first (or raises the same exception), and every array
    that could be read after the first load reads the same after the
    second. *)
Theorem load_data_twice (filename : string) (w : world) :
  let out1 := load_data filename w in
  let out2 := load_data filename out1.2 in
  files out1.2 = files w /\
  files out2.2 = files w /\
  loaded out2 = loaded out1 /\
  (forall l a, array_value (arrays out1.2) l = Ok a ->
               array_value (arrays out2.2) l = Ok a).
Proof.
  cbv zeta.
  destruct (load_data_frame filename w) as [Hf1 Hp1].
  destruct (load_data_frame filename (load_data filename w).2) as [Hf2 Hp2].
  split; [exact Hf1|]. split; [by rewrite Hf2|]. split.
  - rewrite !loaded_load_data, !loaded_load_csv, !loaded_load_oomf.
    by rewrite Hf1.
  - destruct Hp2 as [σ' ->]. intros l a. apply array_value_mono.
Qed.

(* ===================================================================== *)
(** * Rendering leaves the array objects alone *)
(* ===================================================================== *)

Section Stable.

Lemma stable_ret {A} (a : A) : array_stable (mret a : M A).
Proof. intros w. reflexivity. Qed.

Lemma stable_raise {A} (e : exn) : array_stable (@raise A e).
Proof. intros w. reflexivity. Qed.

Lemma stable_lift {A} (r : result A) : array_stable (lift r).
Proof. intros w. reflexivity. Qed.

Lemma stable_bind {A B} (m : M A) (k : A -> M B) :
  array_stable m -> (forall a, array_stable (k a)) -> array_stable (m ≫= k).
Proof.
  intros Hm Hk w. rewrite bind_run. specialize (Hm w).
  destruct (m w) as [[a|e] w']; cbn [snd] in *; [|exact Hm].
  etransitivity; [exact Hm|apply Hk].
Qed.

Lemma stable_read_array (l : loc) : array_stable (read_array l).
Proof. intros w. reflexivity. Qed.

Lemma stable_alloc_array (o : array_obj) : array_stable (alloc_array o).
Proof. intros w. cbn. by apply prefix_app_r. Qed.

Lemma stable_view_on (l : loc) (ix : index2) : array_stable (view_on l ix).
Proof.
  intros w. unfold view_on.
  destruct (arrays w !! l) as [[a|b ixs|a]|]; cbn; [by apply prefix_app_r..|done].
Qed.

Lemma stable_plt_figure : array_stable plt_figure.
Proof. intros w. reflexivity. Qed.

Lemma stable_add_subplot (fig : loc) : array_stable (add_subplot fig).
Proof. intros w. unfold add_subplot. by destruct (figures w !! fig). Qed.

Lemma stable_add_artist (ax : loc) (a : artist) : array_stable (add_artist ax a).
Proof. intros w. unfold add_artist. by destruct (axes w !! ax). Qed.

Lemma stable_fig_colorbar (fig : loc) (cr : mappable) :
  array_stable (fig_colorbar fig cr).
Proof. intros w. unfold fig_colorbar. by destruct (figures w !! fig). Qed.

End Stable.

(** Stability of a composed computation, piece by piece. *)
Ltac stable :=
  repeat first
    [ apply stable_bind; [|intros ?]
    | apply stable_ret | apply stable_raise | apply stable_lift
    | apply stable_read_array | apply stable_alloc_array | apply stable_view_on
    | apply stable_plt_figure | apply stable_add_subplot
    | apply stable_add_artist | apply stable_fig_colorbar
    | match goal with
      | |- array_stable (if ?b then _ else _) => destruct b
      | |- array_stable (match ?x with _ => _ end) => destruct x
      end ].

Lemma stable_new_view (l : loc) (ix : index2) : array_stable (new_view l ix).
Proof. unfold new_view. stable. Qed.

Lemma stable_index_rows (l : loc) (idx : list nat) : array_stable (index_rows l idx).
Proof. unfold index_rows, new_value. stable. Qed.

Lemma stable_scalar_times (k : Z) (l : loc) : array_stable (scalar_times k l).
Proof. unfold scalar_times, new_value. stable. Qed.

Lemma stable_divided_by (l : loc) (d : scalar) : array_stable (divided_by l d).
Proof. unfold divided_by, new_array. stable. Qed.

Lemma stable_array_max (l : loc) : array_stable (array_max l).
Proof. unfold array_max. stable. Qed.

Lemma stable_array_min (l : loc) : array_stable (array_min l).
Proof. unfold array_min. stable. Qed.

Lemma stable_ax_scatter (ax x y : loc) (s : Z) (c : loc) :
  array_stable (ax_scatter ax x y s c).
Proof. unfold ax_scatter. stable. Qed.

Lemma stable_ax_quiver (ax x y u v c : loc) (units : string) :
  array_stable (ax_quiver ax x y u v c units).
Proof. unfold ax_quiver. stable. Qed.

Lemma stable_figure_and_axes (figax : option (loc * loc)) :
  array_stable (figure_and_axes figax).
Proof. unfold figure_and_axes. stable. Qed.

Lemma stable_plot_magnetization (pos mag : loc) (figax : option (loc * loc)) :
  array_stable (plot_magnetization pos mag figax).
Proof.
  unfold plot_magnetization.
  repeat first
    [ apply stable_figure_and_axes | apply stable_read_array | apply stable_lift
    | apply stable_index_rows | apply stable_new_view | apply stable_scalar_times
    | apply stable_array_max | apply stable_array_min | apply stable_divided_by
    | apply stable_ax_scatter | apply stable_ax_quiver | apply stable_fig_colorbar
    | apply stable_ret | progress cbv zeta
    | apply stable_bind; [|intros ?] ].
Qed.

(** C9.  [plot_magnetization] never changes an array object that existed
    when it was called: the store of array objects only grows, so every
    object is found unchanged at its address and the caller's position and
    magnetization arrays read, entry for entry, as before.  This holds for
    every input, also when the call raises. *)
Theorem plot_magnetization_keeps_arrays
    (pos mag : loc) (figax : option (loc * loc)) (w : world) :
  let w' := (plot_magnetization pos mag figax w).2 in
  arrays w `prefix_of` arrays w' /\
  (forall l o, arrays w !! l = Some o -> arrays w' !! l = Some o) /\
  (forall P, array_value (arrays w) pos = Ok P -> array_value (arrays w') pos = Ok P) /\
  (forall Mg, array_value (arrays w) mag = Ok Mg -> array_value (arrays w') mag = Ok Mg).
Proof.
  cbv zeta.
  pose proof (stable_plot_magnetization pos mag figax w) as Hpre.
  split; [exact Hpre|]. destruct Hpre as [σ' ->].
  split; [|split].
  - intros l o. apply lookup_app_l_Some.
  - intros P. apply array_value_mono.
  - intros Mg. apply array_value_mono.
Qed.

(* ===================================================================== *)
(** * Rendering: the row mask *)
(* ===================================================================== *)

Lemma truthy_nonzero (x : float64) : F64.truthy x = true <-> nonzero x.
Proof.
  unfold nonzero. destruct x as [[|]| | |]; cbn; split; try done.
  - by intros [_ ?].
  - by intros [? _].
Qed.

Lemma existsb_magnetized (m : list float64) :
  existsb F64.truthy m = true <-> magnetized m.
Proof.
  unfold magnetized. rewrite existsb_exists, Exists_exists.
  split; intros (x & Hin & Hx); exists x.
  - by rewrite list_elem_of_In, <- truthy_nonzero.
  - by rewrite <- list_elem_of_In, truthy_nonzero.
Qed.

(** Gathering the rows at the positions [np.where] returns is filtering the
    rows by the mask. *)
Lemma gather_where {A} (Mg : list (list float64)) (xs pre : list A) :
  length xs = length Mg ->
  mapM (fun i : nat => (pre ++ xs) !! i)
       (where_from (length pre) (map (existsb F64.truthy) Mg)) =
  Some (filter (fun pm => magnetized pm.2) (zip xs Mg)).*1.
Proof.
  revert xs pre. induction Mg as [|m Mg IH]; intros [|x xs] pre Hlen;
    try discriminate; [reflexivity|].
  injection Hlen as Hlen. cbn [map where_from zip zip_with].
  specialize (IH xs (pre ++ [x]) Hlen).
  rewrite length_app, Nat.add_1_r, <- app_assoc in IH. cbn [app] in IH.
  destruct (existsb F64.truthy m) eqn:Hm.
  - rewrite filter_cons_True by by apply existsb_magnetized.
    cbn [mapM]. rewrite lookup_new, IH. reflexivity.
  - rewrite filter_cons_False; [exact IH|].
    cbn [snd]. rewrite <- existsb_magnetized, Hm. discriminate.
Qed.

Lemma kept_sites_snd (P Mg : list (list float64)) :
  length P = length Mg ->
  (filter (fun pm => magnetized pm.2) (zip Mg Mg)).*1 = (kept_sites P Mg).*2.
Proof.
  unfold kept_sites. revert P. induction Mg as [|m Mg IH]; intros [|p P] Hlen;
    try discriminate; [reflexivity|].
  injection Hlen as Hlen. cbn [zip zip_with].
  destruct (decide (magnetized m)) as [Hm|Hm].
  - rewrite !filter_cons_True by done. cbn. f_equal. by apply IH.
  - rewrite !filter_cons_False by done. by apply IH.
Qed.

Lemma take_rows_mask {c : nat} (P Mg : list (list float64)) :
  length P = length Mg ->
  take_rows (where_from 0 (map (existsb F64.truthy) Mg)) (Arr2 c P) =
  Ok (Arr2 c (kept_sites P Mg).*1).
Proof.
  intros Hlen. unfold take_rows.
  pose proof (gather_where Mg P [] Hlen) as H. cbn [app length] in H.
  by rewrite H.
Qed.

Lemma take_rows_mask_self {c : nat} (P Mg : list (list float64)) :
  length P = length Mg ->
  take_rows (where_from 0 (map (existsb F64.truthy) Mg)) (Arr2 c Mg) =
  Ok (Arr2 c (kept_sites P Mg).*2).
Proof.
  intros Hlen. unfold take_rows.
  pose proof (gather_where Mg Mg [] eq_refl) as H. cbn [app length] in H.
  by rewrite H, (kept_sites_snd P Mg Hlen).
Qed.

Lemma kept_sites_wf (Q : list float64 -> Prop) (P Mg : list (list float64)) :
  Forall Q P -> Forall Q Mg ->
  Forall Q (kept_sites P Mg).*1 /\ Forall Q (kept_sites P Mg).*2.
Proof.
  intros HP HM. rewrite !Forall_fmap. unfold kept_sites.
  split; apply Forall_forall; intros [p m] [_ Hin]%list_elem_of_filter; cbn.
  - rewrite Forall_forall in HP. apply HP. eapply elem_of_zip_l, Hin.
  - rewrite Forall_forall in HM. apply HM. eapply elem_of_zip_r, Hin.
Qed.

Lemma length_column (j : nat) (rows : list (list float64)) :
  length (column j rows) = length rows.
Proof. apply length_map. Qed.

Lemma apply_col (c j : nat) (rows : list (list float64)) :
  Forall (fun r => length r = c) rows -> j < c ->
  apply_index2 (Col j) (Arr2 c rows) = Ok (Arr1 (column j rows)).
Proof.
  intros Hwf Hj. unfold apply_index2.
  assert ((j <? c) = true) as -> by by apply Nat.ltb_lt.
  assert (mapM (fun r : list float64 => r !! j) rows = Some (column j rows)) as ->;
    [|reflexivity].
  induction Hwf as [|r rows Hr _ IH]; [reflexivity|].
  cbn [mapM column map].
  destruct (lookup_lt_is_Some_2 r j ltac:(lia)) as [x Hx].
  rewrite Hx. cbn. unfold column in IH. by rewrite IH.
Qed.

(* ===================================================================== *)
(** * Rendering, run *)
(* ===================================================================== *)

Lemma ravel_amap {A B} (f : A -> B) (a : ndarray A) :
  ravel (amap f a) = map f (ravel a).
Proof.
  destruct a as [x|xs|c rows]; cbn; try reflexivity.
  induction rows as [|r rows IH]; cbn; [reflexivity|].
  by rewrite map_app, IH.
Qed.

Lemma value_ravel_floats (a : ndarray float64) : value_ravel (Floats a) = ravel a.
Proof. reflexivity. Qed.

Lemma length_value_ravel_times (k : Z) (v : ndvalue) :
  length (value_ravel (value_times k v)) = length (value_ravel v).
Proof.
  unfold value_ravel.
  destruct v as [a|a]; cbn [value_times value_floats];
    rewrite !ravel_amap, !length_map; reflexivity.
Qed.

Lemma length_ravel_divide (v : ndvalue) (d : scalar) :
  length (ravel (value_divide v d)) = length (value_ravel v).
Proof. unfold value_divide, value_ravel. by rewrite ravel_amap, length_map. Qed.

Lemma array_data_owned_float (σ news : list array_obj) (k : nat) (a : ndarray float64) :
  news !! k = Some (Owned a) ->
  array_data (σ ++ news) (length σ + k) = Ok (Floats a).
Proof. apply (array_data_owned σ news k (Floats a)). Qed.

(** Each array operation of the renderer, run in a world whose array store
    is [σ ++ news]: the arrays that were there, then the new ones. *)
Section RunArrays.

Variables (w : world) (σ news : list array_obj).
Hypothesis Hstore : arrays w = σ ++ news.

Lemma index_rows_run (l : loc) (idx : list nat) (v sel : ndvalue) :
  array_data (arrays w) l = Ok v ->
  value_take_rows idx v = Ok sel ->
  index_rows l idx w =
    (Ok (length σ + length news), set_arrays w (σ ++ (news ++ [object_of sel]))).
Proof using Hstore.
  intros Ha Hsel. unfold index_rows, new_value, alloc_array, read_array. run.
  rewrite Ha. run. rewrite Hsel. run.
  by rewrite Hstore, length_app, app_assoc.
Qed.

Lemma new_view_run (j : nat) (ix : index2) (v x : ndvalue) :
  news !! j = Some (object_of v) ->
  value_index2 ix v = Ok x ->
  new_view (length σ + j) ix w =
    (Ok (length σ + length news),
     set_arrays w (σ ++ (news ++ [View (length σ + j) [ix]]))).
Proof using Hstore.
  intros Hj Hv. unfold new_view, view_on, alloc_array, read_array. run.
  rewrite Hstore, (array_data_owned _ _ _ _ Hj). run. rewrite Hv. run.
  rewrite Hstore, lookup_app_plus, Hj.
  destruct v; cbn [object_of]; run; by rewrite length_app, app_assoc.
Qed.

Lemma scalar_times_run (k : Z) (l : loc) (v : ndvalue) :
  array_data (arrays w) l = Ok v ->
  scalar_times k l w =
    (Ok (length σ + length news),
     set_arrays w (σ ++ (news ++ [object_of (value_times k v)]))).
Proof using Hstore.
  intros Ha. unfold scalar_times, new_value, alloc_array, read_array. run.
  rewrite Ha. run. by rewrite Hstore, length_app, app_assoc.
Qed.

Lemma divided_by_run (l : loc) (d : scalar) (v : ndvalue) :
  array_data (arrays w) l = Ok v ->
  divided_by l d w =
    (Ok (length σ + length news),
     set_arrays w (σ ++ (news ++ [Owned (value_divide v d)]))).
Proof using Hstore.
  intros Ha. unfold divided_by, new_array, alloc_array, read_array. run.
  rewrite Ha. run. by rewrite Hstore, length_app, app_assoc.
Qed.

End RunArrays.

Lemma array_max_run (w : world) (l : loc) (v : ndvalue) :
  array_data (arrays w) l = Ok v -> array_max l w = (value_max v, w).
Proof. intros Ha. unfold array_max, read_array. run. rewrite Ha. by run. Qed.

Lemma array_min_run (w : world) (l : loc) (v : ndvalue) :
  array_data (arrays w) l = Ok v -> array_min l w = (value_min v, w).
Proof. intros Ha. unfold array_min, read_array. run. rewrite Ha. by run. Qed.

Lemma ax_scatter_run (w : world) (ax x y c : loc) (s : Z)
    (xv yv cv : ndvalue) (arts : list artist) :
  array_data (arrays w) x = Ok xv ->
  array_data (arrays w) y = Ok yv ->
  array_data (arrays w) c = Ok cv ->
  length (value_ravel yv) = length (value_ravel xv) ->
  length (value_ravel cv) = length (value_ravel xv) ->
  axes w !! ax = Some arts ->
  ax_scatter ax x y s c w =
    (Ok (ax, length arts),
     set_axes w
       (<[ax := arts ++ [PathCollection (value_ravel xv) (value_ravel yv) s
                                        (value_ravel cv)]]> (axes w))).
Proof.
  intros Hx Hy Hc Hyx Hcx Hax. unfold ax_scatter, read_array, add_artist. run.
  rewrite Hx. run. rewrite Hy. run. rewrite Hc. run.
  rewrite Hyx, Hcx, Nat.eqb_refl. cbn [negb]. by rewrite Hax.
Qed.

Lemma ax_quiver_run (w : world) (ax x y u v c : loc) (units : string)
    (xv yv uv vv cv : ndvalue) (arts : list artist) :
  array_data (arrays w) x = Ok xv ->
  array_data (arrays w) y = Ok yv ->
  array_data (arrays w) u = Ok uv ->
  array_data (arrays w) v = Ok vv ->
  array_data (arrays w) c = Ok cv ->
  length (value_ravel yv) = length (value_ravel xv) ->
  length (value_ravel uv) = length (value_ravel xv) ->
  length (value_ravel vv) = length (value_ravel xv) ->
  length (value_ravel cv) = length (value_ravel xv) ->
  axes w !! ax = Some arts ->
  ax_quiver ax x y u v c units w =
    (Ok (ax, length arts),
     set_axes w
       (<[ax := arts ++ [QuiverArtist (value_ravel xv) (value_ravel yv)
                                      (value_ravel uv) (value_ravel vv)
                                      (value_ravel cv) units]]> (axes w))).
Proof.
  intros Hx Hy Hu Hv Hc Hyx Hux Hvx Hcx Hax.
  unfold ax_quiver, read_array, add_artist. run.
  rewrite Hx. run. rewrite Hy. run. rewrite Hu. run. rewrite Hv. run.
  rewrite Hc. run. cbn [forallb].
  rewrite Hyx, Hux, Hvx, Hcx, Nat.eqb_refl. cbn [negb andb]. by rewrite Hax.
Qed.

Lemma fig_colorbar_run (w : world) (fig : loc) (cr : mappable) (f : figure) :
  figures w !! fig = Some f ->
  fig_colorbar fig cr w =
    (Ok tt,
     set_figures (set_axes w (axes w ++ [[Colorbar cr]]))
       (<[fig := Figure (fig_axes f ++ [length (axes w)]) (fig_colorbars f ++ [cr])]>
          (figures w))).
Proof. intros Hf. unfold fig_colorbar. by rewrite Hf. Qed.

(** A new figure with its axes, then drawing, is drawing on that canvas. *)
Lemma plot_magnetization_new_canvas (pos mag : loc) (w : world) :
  plot_magnetization pos mag None w =
  plot_magnetization pos mag
    (Some (length (figures w), length (axes w))) (new_canvas w).
Proof.
  unfold plot_magnetization. rewrite !(bind_run (figure_and_axes _)).
  assert (figure_and_axes None w =
          (Ok (length (figures w), length (axes w)), new_canvas w)) as ->.
  { unfold figure_and_axes, plt_figure, add_subplot. run.
    rewrite (lookup_new _ _ []). unfold new_canvas. cbn [fig_axes fig_colorbars app].
    do 2 f_equal. unfold set_figures, set_axes. cbn. f_equal.
    rewrite insert_app_r_alt by done. by rewrite Nat.sub_diag. }
  reflexivity.
Qed.

Lemma set_arrays_twice (w : world) (a b : list array_obj) :
  set_arrays (set_arrays w a) b = set_arrays w b.
Proof. reflexivity. Qed.

(** [plot_magnetization] on a given canvas, step by step, for arrays of
    either dtype: [bs] is the row mask, [vp'] and [vm'] are the filtered
    tables and [x0] ... [m2] their columns. *)
Section PlotRunValues.

Variables (w : world) (pos mag fig ax : loc) (f : figure) (arts : list artist).
Variables (vp vm vp' vm' x0 x1 x2 m0 m1 m2 : ndvalue) (bs : list bool).
Hypothesis Hpos : array_data (arrays w) pos = Ok vp.
Hypothesis Hmag : array_data (arrays w) mag = Ok vm.
Hypothesis Hany : value_any_axis1 vm = Ok bs.
Hypothesis Hselp : value_take_rows (where_from 0 bs) vp = Ok vp'.
Hypothesis Hselm : value_take_rows (where_from 0 bs) vm = Ok vm'.
Hypothesis Hx0 : value_index2 (Col 0) vp' = Ok x0.
Hypothesis Hx1 : value_index2 (Col 1) vp' = Ok x1.
Hypothesis Hx2 : value_index2 (Col 2) vp' = Ok x2.
Hypothesis Hm0 : value_index2 (Col 0) vm' = Ok m0.
Hypothesis Hm1 : value_index2 (Col 1) vm' = Ok m1.
Hypothesis Hm2 : value_index2 (Col 2) vm' = Ok m2.
Hypothesis Hlen1 : length (value_ravel x1) = length (value_ravel x0).
Hypothesis Hlenu : length (value_ravel m0) = length (value_ravel x0).
Hypothesis Hlenv : length (value_ravel m1) = length (value_ravel x0).
Hypothesis Hlenc : length (value_ravel m2) = length (value_ravel x0).
Hypothesis Hfig : figures w !! fig = Some f.
Hypothesis Hax : axes w !! ax = Some arts.

Ltac tidy := run; cbn [app length]; rewrite ?set_arrays_twice.
Ltac view_step kk HH :=
  erewrite new_view_run with (σ := arrays w) (j := kk);
    [ | reflexivity | reflexivity | exact HH ];
  tidy.
Ltac owned_value :=
  cbn [arrays set_arrays set_axes set_figures]; by apply array_data_owned.
Ltac owned_float :=
  cbn [arrays set_arrays set_axes set_figures]; by apply array_data_owned_float.
Ltac value_of kk HH :=
  cbn [arrays set_arrays set_axes set_figures];
  erewrite array_data_view with (j := kk);
    [ exact HH | reflexivity | reflexivity | reflexivity ].
Ltac color_length :=
  rewrite value_ravel_floats, length_ravel_divide, length_value_ravel_times;
  exact Hlenc.

Lemma plot_magnetization_run_values :
  let twice := value_times 2 m2 in
  let made := made_objects (length (arrays w)) vp' vm' twice in
  plot_magnetization pos mag (Some (fig, ax)) w =
  match value_max m2, value_min m2 with
  | Ok hi, Ok lo =>
      let color := value_divide twice (scalar_minus hi lo) in
      (Ok (fig, ax),
       World (files w) (trace w)
         (arrays w ++ made ++ [Owned color])
         (<[ax := arts ++
                  [ PathCollection (value_ravel x0) (value_ravel x1) 1 (ravel color);
                    QuiverArtist (value_ravel x0) (value_ravel x1)
                                 (value_ravel m0) (value_ravel m1) (ravel color) "xy" ]]>
            (axes w) ++ [[Colorbar (ax, length arts)]])
         (<[fig := Figure (fig_axes f ++ [length (axes w)])
                          (fig_colorbars f ++ [(ax, length arts)])]>
            (figures w)))
  | Raise e, _ | Ok _, Raise e =>
      (Raise e, set_arrays w (arrays w ++ made))
  end.
Proof using All.
  cbv zeta.
  unfold plot_magnetization, figure_and_axes. run. cbv zeta. cbn [fst snd].
  unfold read_array at 1. run. rewrite Hmag. run. rewrite Hany. run.
  cbn [np_where tuple_get lookup list_lookup]. run.
  erewrite index_rows_run with (σ := arrays w) (news := []);
    [ | symmetry; apply app_nil_r | exact Hpos | exact Hselp ].
  tidy.
  erewrite index_rows_run with (σ := arrays w);
    [ | reflexivity | exact (array_data_mono _ _ _ _ Hmag) | exact Hselm ].
  tidy.
  view_step 0 Hx0. view_step 0 Hx1. view_step 0 Hx2.
  view_step 1 Hm0. view_step 1 Hm1. view_step 1 Hm2.
  erewrite scalar_times_run with (σ := arrays w); [ | reflexivity | value_of 1 Hm2 ].
  tidy.
  erewrite array_max_run; [ | value_of 1 Hm2 ]. tidy.
  destruct (value_max m2) as [hi|e]; [|by rewrite Nat.add_0_r].
  tidy.
  erewrite array_min_run; [ | value_of 1 Hm2 ]. tidy.
  destruct (value_min m2) as [lo|e]; [|by rewrite Nat.add_0_r].
  tidy.
  erewrite divided_by_run with (σ := arrays w);
    [ | reflexivity | owned_value ].
  tidy.
  erewrite ax_scatter_run;
    [ | value_of 0 Hx0 | value_of 0 Hx1 | owned_float
      | exact Hlen1 | color_length | exact Hax ].
  tidy.
  erewrite ax_quiver_run;
    [ | value_of 0 Hx0 | value_of 0 Hx1 | value_of 1 Hm0 | value_of 1 Hm1
      | owned_float | exact Hlen1 | exact Hlenu | exact Hlenv | color_length
      | apply list_lookup_insert_eq; by eapply lookup_lt_Some ].
  tidy.
  erewrite fig_colorbar_run; [ | exact Hfig ].
  tidy.
  rewrite list_insert_insert_eq, !length_insert, <- !app_assoc, Nat.add_0_r.
  rewrite !value_ravel_floats.
  reflexivity.
Qed.

End PlotRunValues.

(** The mask is made from the magnetizations alone: positions beyond the
    last magnetization are never looked at. *)
Lemma gather_where_le {A} (Mg : list (list float64)) (xs pre : list A) :
  length Mg <= length xs ->
  mapM (fun i : nat => (pre ++ xs) !! i)
       (where_from (length pre) (map (existsb F64.truthy) Mg)) =
  Some (filter (fun pm => magnetized pm.2) (zip xs Mg)).*1.
Proof.
  revert xs pre. induction Mg as [|m Mg IH]; intros xs pre Hlen.
  { by destruct xs. }
  destruct xs as [|x xs]; cbn [length] in Hlen; [lia|].
  cbn [map where_from zip zip_with].
  specialize (IH xs (pre ++ [x]) ltac:(lia)).
  rewrite length_app, Nat.add_1_r, <- app_assoc in IH. cbn [app] in IH.
  destruct (existsb F64.truthy m) eqn:Hm.
  - rewrite filter_cons_True by by apply existsb_magnetized.
    cbn [mapM]. rewrite lookup_new, IH. reflexivity.
  - rewrite filter_cons_False; [exact IH|].
    cbn [snd]. rewrite <- existsb_magnetized, Hm. discriminate.
Qed.

Lemma kept_sites_snd_le (P Mg : list (list float64)) :
  length Mg <= length P ->
  (filter (fun pm => magnetized pm.2) (zip Mg Mg)).*1 = (kept_sites P Mg).*2.
Proof.
  unfold kept_sites. revert P. induction Mg as [|m Mg IH]; intros P Hlen.
  { by destruct P. }
  destruct P as [|p P]; cbn [length] in Hlen; [lia|]. cbn [zip zip_with].
  destruct (decide (magnetized m)) as [Hm|Hm].
  - rewrite !filter_cons_True by done. cbn. f_equal. apply IH. lia.
  - rewrite !filter_cons_False by done. apply IH. lia.
Qed.

Lemma take_rows_mask_le {c : nat} (P Mg : list (list float64)) :
  length Mg <= length P ->
  take_rows (where_from 0 (map (existsb F64.truthy) Mg)) (Arr2 c P) =
  Ok (Arr2 c (kept_sites P Mg).*1).
Proof.
  intros Hlen. unfold take_rows.
  pose proof (gather_where_le Mg P [] Hlen) as H. cbn [app length] in H.
  by rewrite H.
Qed.

Lemma take_rows_mask_self_le {c : nat} (P Mg : list (list float64)) :
  length Mg <= length P ->
  take_rows (where_from 0 (map (existsb F64.truthy) Mg)) (Arr2 c Mg) =
  Ok (Arr2 c (kept_sites P Mg).*2).
Proof.
  intros Hlen. unfold take_rows.
  pose proof (gather_where_le Mg Mg [] (le_n _)) as H. cbn [app length] in H.
  by rewrite H, (kept_sites_snd_le P Mg Hlen).
Qed.

(** [plot_magnetization] on a given canvas, for [float64] tables of three
    columns with a position for every magnetization. *)
Section PlotRun.

Variables (w : world) (pos mag fig ax : loc) (P Mg : list (list float64)).
Variables (f : figure) (arts : list artist).
Hypothesis Hpos : array_value (arrays w) pos = Ok (Arr2 3 P).
Hypothesis Hmag : array_value (arrays w) mag = Ok (Arr2 3 Mg).
Hypothesis HP : Forall (fun r => length r = 3) P.
Hypothesis HM : Forall (fun r => length r = 3) Mg.
Hypothesis Hlen : length Mg <= length P.
Hypothesis Hfig : figures w !! fig = Some f.
Hypothesis Hax : axes w !! ax = Some arts.

Lemma plot_magnetization_run_le :
  let sites := kept_sites P Mg in
  let Mz := column 2 sites.*2 in
  let made := filtered_objects (length (arrays w)) sites in
  plot_magnetization pos mag (Some (fig, ax)) w =
  match np_max (Arr1 Mz), np_min (Arr1 Mz) with
  | Ok hi, Ok lo =>
      let d := F64.sub hi lo in
      (Ok (fig, ax),
       World (files w) (trace w)
         (arrays w ++ made ++ [Owned (Arr1 (colors Mz d))])
         (<[ax := arts ++ drawn sites d]> (axes w) ++ [[Colorbar (ax, length arts)]])
         (<[fig := Figure (fig_axes f ++ [length (axes w)])
                          (fig_colorbars f ++ [(ax, length arts)])]>
            (figures w)))
  | Raise e, _ | Ok _, Raise e =>
      (Raise e, set_arrays w (arrays w ++ made))
  end.
Proof using All.
  destruct (kept_sites_wf _ P Mg HP HM) as [HP' HM'].
  cbv zeta.
  rewrite (plot_magnetization_run_values w pos mag fig ax f arts
             (Floats (Arr2 3 P)) (Floats (Arr2 3 Mg))
             (Floats (Arr2 3 (kept_sites P Mg).*1))
             (Floats (Arr2 3 (kept_sites P Mg).*2))
             (Floats (Arr1 (column 0 (kept_sites P Mg).*1)))
             (Floats (Arr1 (column 1 (kept_sites P Mg).*1)))
             (Floats (Arr1 (column 2 (kept_sites P Mg).*1)))
             (Floats (Arr1 (column 0 (kept_sites P Mg).*2)))
             (Floats (Arr1 (column 1 (kept_sites P Mg).*2)))
             (Floats (Arr1 (column 2 (kept_sites P Mg).*2)))
             (map (existsb F64.truthy) Mg));
    try (by apply array_data_float);
    try reflexivity;
    try (cbn [value_take_rows];
         by rewrite ?(take_rows_mask_self_le P Mg Hlen), ?(take_rows_mask_le P Mg Hlen));
    try (cbn [value_index2]; by rewrite apply_col by (done || lia));
    try (rewrite !value_ravel_floats; cbn [ravel];
         rewrite !length_column, !length_fmap; reflexivity);
    try done.
  cbv zeta. cbn [value_max value_min].
  destruct (np_max _) as [hi|e]; [|reflexivity].
  destruct (np_min _) as [lo|e]; reflexivity.
Qed.
End PlotRun.


Lemma lookup_insert_app {A} (l more : list A) (i : nat) (x : A) :
  i < length l -> (<[i := x]> l ++ more) !! i = Some x.
Proof.
  intros Hi. rewrite lookup_app_l by (by rewrite length_insert).
  by apply list_lookup_insert_eq.
Qed.


(* ===================================================================== *)
(** * Binary64 facts for the colour scale *)
(* ===================================================================== *)

Lemma maximum_choice (a b : float64) : F64.maximum a b = a \/ F64.maximum a b = b.
Proof.
  unfold F64.maximum.
  destruct (F64.is_nan a); [by left|].
  destruct (F64.is_nan b); [by right|].
  destruct (F64.ltb b a); auto.
Qed.

Lemma minimum_choice (a b : float64) : F64.minimum a b = a \/ F64.minimum a b = b.
Proof.
  unfold F64.minimum.
  destruct (F64.is_nan a); [by left|].
  destruct (F64.is_nan b); [by right|].
  destruct (F64.ltb a b); auto.
Qed.

Lemma foldl_choice {A} (f : A -> A -> A) (xs : list A) (a : A) :
  (forall x y, f x y = x \/ f x y = y) -> foldl f a xs ∈ a :: xs.
Proof.
  intros Hf. revert a. induction xs as [|x xs IH]; intros a; cbn [foldl].
  - apply list_elem_of_here.
  - specialize (IH (f a x)). apply elem_of_cons in IH as [->|IH].
    + destruct (Hf a x) as [->| ->].
      * apply list_elem_of_here.
      * apply list_elem_of_further, list_elem_of_here.
    + by do 2 apply list_elem_of_further.
Qed.

(** ** The order of binary64 numbers *)

Ltac compare_cases :=
  repeat match goal with
         | |- context [(?x ?= ?y)%Z] => destruct (Z.compare_spec x y)
         end.

Lemma lex_compare_le (a b : Z * Z * Z) : lex_compare a b <> Gt <-> lex_le a b.
Proof.
  destruct a as [[a1 a2] a3], b as [[b1 b2] b3].
  unfold lex_compare, lex_le. cbn [fst snd].
  compare_cases; split; intros Hyp; try discriminate; try lia; by destruct Hyp.
Qed.

Lemma lex_compare_lt (a b : Z * Z * Z) : lex_compare a b = Lt <-> ~ lex_le b a.
Proof.
  destruct a as [[a1 a2] a3], b as [[b1 b2] b3].
  unfold lex_compare, lex_le. cbn [fst snd].
  compare_cases; split; intros Hyp; try discriminate; try reflexivity; try lia;
    exfalso; apply Hyp; lia.
Qed.

Lemma compare_rank (x y : float64) :
  F64.is_nan x = false -> F64.is_nan y = false ->
  SFcompare x y = Some (lex_compare (rank x) (rank y)).
Proof.
  destruct x as [sx|sx| |sx mx ex], y as [sy|sy| |sy my ey]; try discriminate;
    intros _ _; try (by destruct sx, sy); try (by destruct sx); try (by destruct sy).
  destruct sx, sy; try reflexivity;
    unfold SFcompare, rank, lex_compare; cbn [fst snd].
  rewrite Z.compare_opp, (Z.compare_antisym ex ey).
  change (Z.neg mx ?= Z.neg my)%Z with (CompOpp (mx ?= my)%positive).
  change (Z.compare (-1) (-1)) with Eq.
  by destruct (ex ?= ey)%Z.
Qed.

Lemma leb_rank (x y : float64) :
  F64.is_nan x = false -> F64.is_nan y = false ->
  F64.leb x y = true <-> lex_le (rank x) (rank y).
Proof.
  intros Hx Hy. rewrite <- lex_compare_le.
  unfold F64.leb, SFleb. rewrite compare_rank by done.
  destruct (lex_compare (rank x) (rank y)); split; done.
Qed.

Lemma ltb_rank (x y : float64) :
  F64.is_nan x = false -> F64.is_nan y = false ->
  F64.ltb x y = true <-> ~ lex_le (rank y) (rank x).
Proof.
  intros Hx Hy. rewrite <- lex_compare_lt.
  unfold F64.ltb, SFltb. rewrite compare_rank by done.
  destruct (lex_compare (rank x) (rank y)); split; done.
Qed.

Lemma lex_le_refl (a : Z * Z * Z) : lex_le a a.
Proof. unfold lex_le. lia. Qed.

Lemma lex_le_trans (a b c : Z * Z * Z) : lex_le a b -> lex_le b c -> lex_le a c.
Proof. unfold lex_le. lia. Qed.

Lemma lex_le_total (a b : Z * Z * Z) : lex_le a b \/ lex_le b a.
Proof. unfold lex_le. lia. Qed.

Lemma lex_le_antisym (a b : Z * Z * Z) : lex_le a b -> lex_le b a -> a = b.
Proof.
  destruct a as [[a1 a2] a3], b as [[b1 b2] b3]. unfold lex_le. cbn [fst snd].
  intros H1 H2. repeat f_equal; lia.
Qed.

Lemma leb_refl (x : float64) : F64.is_nan x = false -> F64.leb x x = true.
Proof. intros Hx. apply leb_rank; [done..|apply lex_le_refl]. Qed.

Lemma leb_trans (x y z : float64) :
  F64.is_nan x = false -> F64.is_nan y = false -> F64.is_nan z = false ->
  F64.leb x y = true -> F64.leb y z = true -> F64.leb x z = true.
Proof.
  intros Hx Hy Hz Hxy%leb_rank Hyz%leb_rank; try done.
  apply leb_rank; [done..|]. by eapply lex_le_trans.
Qed.

Lemma ltb_leb (x y : float64) :
  F64.is_nan x = false -> F64.is_nan y = false ->
  F64.ltb x y = true -> F64.leb x y = true.
Proof.
  intros Hx Hy Hlt%ltb_rank; try done. apply leb_rank; [done..|].
  by destruct (lex_le_total (rank x) (rank y)).
Qed.

Lemma not_ltb_leb (x y : float64) :
  F64.is_nan x = false -> F64.is_nan y = false ->
  F64.ltb x y = false -> F64.leb y x = true.
Proof.
  intros Hx Hy Hlt. apply leb_rank; [done..|].
  destruct (decide (lex_le (rank y) (rank x))) as [H|H]; [done|].
  apply ltb_rank in H; [congruence|done..].
Qed.

Lemma rank_same (x y : float64) :
  F64.is_nan x = false -> F64.is_nan y = false ->
  rank x = rank y -> same_number x y.
Proof.
  destruct x as [sx|sx| |sx mx ex], y as [sy|sy| |sy my ey]; try discriminate;
    intros _ _ H.
  - right. eauto.
  - by destruct sy.
  - by destruct sy.
  - by destruct sx.
  - left. by destruct sx, sy.
  - by destruct sx, sy.
  - by destruct sx.
  - by destruct sx, sy.
  - left. destruct sx, sy; try discriminate; injection H as H1 H2;
      assert (ex = ey) as -> by lia; congruence.
Qed.

Lemma leb_antisym (x y : float64) :
  F64.is_nan x = false -> F64.is_nan y = false ->
  F64.leb x y = true -> F64.leb y x = true -> same_number x y.
Proof.
  intros Hx Hy Hxy%leb_rank Hyx%leb_rank; try done.
  apply rank_same; [done..|]. by apply lex_le_antisym.
Qed.

(** ** Maximum and minimum of a list *)

Lemma is_nan_maximum (a b : float64) :
  F64.is_nan (F64.maximum a b) = F64.is_nan a || F64.is_nan b.
Proof.
  unfold F64.maximum.
  destruct (F64.is_nan a) eqn:Ha; [by rewrite Ha|].
  destruct (F64.is_nan b) eqn:Hb; [by rewrite Hb|].
  destruct (F64.ltb b a); by rewrite ?Ha, ?Hb.
Qed.

Lemma is_nan_minimum (a b : float64) :
  F64.is_nan (F64.minimum a b) = F64.is_nan a || F64.is_nan b.
Proof.
  unfold F64.minimum.
  destruct (F64.is_nan a) eqn:Ha; [by rewrite Ha|].
  destruct (F64.is_nan b) eqn:Hb; [by rewrite Hb|].
  destruct (F64.ltb a b); by rewrite ?Ha, ?Hb.
Qed.

Lemma is_nan_foldl (f : float64 -> float64 -> float64) (xs : list float64) (a : float64) :
  (forall x y, F64.is_nan (f x y) = F64.is_nan x || F64.is_nan y) ->
  F64.is_nan (foldl f a xs) = F64.is_nan a || existsb F64.is_nan xs.
Proof.
  intros Hf. revert a. induction xs as [|x xs IH]; intros a; cbn [foldl existsb].
  - by rewrite orb_false_r.
  - by rewrite IH, Hf, orb_assoc.
Qed.

Lemma maximum_upper (a b : float64) :
  F64.is_nan a = false -> F64.is_nan b = false ->
  F64.leb a (F64.maximum a b) = true /\ F64.leb b (F64.maximum a b) = true.
Proof.
  intros Ha Hb. unfold F64.maximum. rewrite Ha, Hb.
  destruct (F64.ltb b a) eqn:Hlt.
  - split; [by apply leb_refl|by apply ltb_leb].
  - split; [by apply not_ltb_leb|by apply leb_refl].
Qed.

Lemma minimum_lower (a b : float64) :
  F64.is_nan a = false -> F64.is_nan b = false ->
  F64.leb (F64.minimum a b) a = true /\ F64.leb (F64.minimum a b) b = true.
Proof.
  intros Ha Hb. unfold F64.minimum. rewrite Ha, Hb.
  destruct (F64.ltb a b) eqn:Hlt.
  - split; [by apply leb_refl|by apply ltb_leb].
  - split; [by apply not_ltb_leb|by apply leb_refl].
Qed.

Lemma foldl_maximum_upper (xs : list float64) (a : float64) :
  F64.is_nan a = false -> existsb F64.is_nan xs = false ->
  forall x, x ∈ a :: xs -> F64.leb x (foldl F64.maximum a xs) = true.
Proof.
  revert a. induction xs as [|y xs IH]; intros a Ha Hxs x Hx.
  - apply list_elem_of_singleton in Hx as ->. by apply leb_refl.
  - cbn [existsb] in Hxs. apply orb_false_iff in Hxs as [Hy Hxs].
    cbn [foldl].
    assert (F64.is_nan (F64.maximum a y) = false) as Ha'
      by by rewrite is_nan_maximum, Ha, Hy.
    assert (F64.is_nan (foldl F64.maximum (F64.maximum a y) xs) = false) as Hfold
      by by rewrite (is_nan_foldl _ _ _ is_nan_maximum), Ha', Hxs.
    destruct (maximum_upper a y Ha Hy) as [Hua Huy].
    pose proof (IH _ Ha' Hxs (F64.maximum a y) ltac:(apply list_elem_of_here)) as Htop.
    apply elem_of_cons in Hx as [->|Hx]; [by apply (leb_trans _ (F64.maximum a y))|].
    apply elem_of_cons in Hx as [->|Hx]; [by apply (leb_trans _ (F64.maximum a y))|].
    apply IH; [done..|by apply list_elem_of_further].
Qed.

Lemma foldl_minimum_lower (xs : list float64) (a : float64) :
  F64.is_nan a = false -> existsb F64.is_nan xs = false ->
  forall x, x ∈ a :: xs -> F64.leb (foldl F64.minimum a xs) x = true.
Proof.
  revert a. induction xs as [|y xs IH]; intros a Ha Hxs x Hx.
  - apply list_elem_of_singleton in Hx as ->. by apply leb_refl.
  - cbn [existsb] in Hxs. apply orb_false_iff in Hxs as [Hy Hxs].
    cbn [foldl].
    assert (F64.is_nan (F64.minimum a y) = false) as Ha'
      by by rewrite is_nan_minimum, Ha, Hy.
    assert (F64.is_nan (foldl F64.minimum (F64.minimum a y) xs) = false) as Hfold
      by by rewrite (is_nan_foldl _ _ _ is_nan_minimum), Ha', Hxs.
    destruct (minimum_lower a y Ha Hy) as [Hla Hly].
    pose proof (IH _ Ha' Hxs (F64.minimum a y) ltac:(apply list_elem_of_here)) as Hbot.
    apply elem_of_cons in Hx as [->|Hx]; [by apply (leb_trans _ (F64.minimum a y))|].
    apply elem_of_cons in Hx as [->|Hx]; [by apply (leb_trans _ (F64.minimum a y))|].
    apply IH; [done..|by apply list_elem_of_further].
Qed.

(** [np.max] and [np.min] give the greatest and the least entry. *)
Lemma np_max_greatest (xs : list float64) (hi : float64) :
  np_max (Arr1 xs) = Ok hi -> greatest xs hi.
Proof.
  destruct xs as [|x xs]; [discriminate|]. intros H. injection H as <-.
  split; [apply foldl_choice, maximum_choice|].
  pose proof (is_nan_foldl _ xs x is_nan_maximum) as Hnan.
  cbn [existsb]. destruct (F64.is_nan x || existsb F64.is_nan xs) eqn:E; [done|].
  apply orb_false_iff in E as [Hx Hxs]. by apply foldl_maximum_upper.
Qed.

Lemma np_min_least (xs : list float64) (lo : float64) :
  np_min (Arr1 xs) = Ok lo -> least xs lo.
Proof.
  destruct xs as [|x xs]; [discriminate|]. intros H. injection H as <-.
  split; [apply foldl_choice, minimum_choice|].
  pose proof (is_nan_foldl _ xs x is_nan_minimum) as Hnan.
  cbn [existsb]. destruct (F64.is_nan x || existsb F64.is_nan xs) eqn:E; [done|].
  apply orb_false_iff in E as [Hx Hxs]. by apply foldl_minimum_lower.
Qed.

Lemma greatest_np_max (xs : list float64) (hi : float64) :
  greatest xs hi -> exists hi', np_max (Arr1 xs) = Ok hi'.
Proof.
  intros [Hin _]. destruct xs as [|x xs]; [by apply elem_of_nil in Hin|].
  by eexists.
Qed.

Lemma least_np_min (xs : list float64) (lo : float64) :
  least xs lo -> exists lo', np_min (Arr1 xs) = Ok lo'.
Proof.
  intros [Hin _]. destruct xs as [|x xs]; [by apply elem_of_nil in Hin|].
  by eexists.
Qed.

Lemma existsb_is_nan_false (xs : list float64) (x : float64) :
  existsb F64.is_nan xs = false -> x ∈ xs -> F64.is_nan x = false.
Proof.
  intros H Hx. destruct (F64.is_nan x) eqn:E; [|done].
  assert (existsb F64.is_nan xs = true) as H'; [|congruence].
  apply existsb_exists. exists x. by rewrite <- list_elem_of_In.
Qed.

Lemma is_nan_eq (x : float64) : F64.is_nan x = true -> x = S754_nan.
Proof. by destruct x. Qed.

(** Two greatest entries, or two least ones, are the same number. *)
Lemma greatest_same (xs : list float64) (a b : float64) :
  greatest xs a -> greatest xs b -> same_number a b.
Proof.
  intros [Ha Hua] [Hb Hub].
  destruct (existsb F64.is_nan xs) eqn:E.
  - left. by rewrite (is_nan_eq a), (is_nan_eq b).
  - apply leb_antisym; eauto using existsb_is_nan_false.
Qed.

Lemma least_same (xs : list float64) (a b : float64) :
  least xs a -> least xs b -> same_number a b.
Proof.
  intros [Ha Hla] [Hb Hlb].
  destruct (existsb F64.is_nan xs) eqn:E.
  - left. by rewrite (is_nan_eq a), (is_nan_eq b).
  - apply leb_antisym; eauto using existsb_is_nan_false.
Qed.

(** The difference of two numbers that differ does not depend on the sign
    of a zero among them. *)
Lemma sub_same (a a' b b' : float64) :
  same_number a a' -> same_number b b' ->
  F64.eqb a b = false ->
  F64.sub a' b' = F64.sub a b.
Proof.
  intros [->|(sa & sa' & -> & ->)] [->|(sb & sb' & -> & ->)] Hne;
    try reflexivity; try discriminate.
  - by destruct a' as [s|s| |s m e].
  - by destruct b' as [s|s| |s m e].
Qed.




(** ** Maximum and minimum of integers *)

Lemma foldl_Zmax_upper (xs : list Z) (a : Z) :
  forall x, x ∈ a :: xs -> (x <= foldl Z.max a xs)%Z.
Proof.
  revert a. induction xs as [|y xs IH]; intros a x Hx; cbn [foldl].
  - apply list_elem_of_singleton in Hx as ->. lia.
  - pose proof (IH (Z.max a y) (Z.max a y) ltac:(apply list_elem_of_here)).
    apply elem_of_cons in Hx as [->|Hx]; [lia|].
    apply elem_of_cons in Hx as [->|Hx]; [lia|].
    apply IH. by apply list_elem_of_further.
Qed.

Lemma foldl_Zmin_lower (xs : list Z) (a : Z) :
  forall x, x ∈ a :: xs -> (foldl Z.min a xs <= x)%Z.
Proof.
  revert a. induction xs as [|y xs IH]; intros a x Hx; cbn [foldl].
  - apply list_elem_of_singleton in Hx as ->. lia.
  - pose proof (IH (Z.min a y) (Z.min a y) ltac:(apply list_elem_of_here)).
    apply elem_of_cons in Hx as [->|Hx]; [lia|].
    apply elem_of_cons in Hx as [->|Hx]; [lia|].
    apply IH. by apply list_elem_of_further.
Qed.

Lemma np_max_int_greatest (xs : list Z) (hi : Z) :
  greatest_int xs hi -> np_max_int (Arr1 xs) = Ok hi.
Proof.
  intros [Hin Hup]. destruct xs as [|x xs]; [by apply elem_of_nil in Hin|].
  unfold np_max_int. cbn [ravel]. f_equal.
  assert (foldl Z.max x xs ∈ x :: xs) as Hm
    by (apply foldl_choice; intros a b; lia).
  pose proof (foldl_Zmax_upper xs x hi Hin). specialize (Hup _ Hm). lia.
Qed.

Lemma np_min_int_least (xs : list Z) (lo : Z) :
  least_int xs lo -> np_min_int (Arr1 xs) = Ok lo.
Proof.
  intros [Hin Hlow]. destruct xs as [|x xs]; [by apply elem_of_nil in Hin|].
  unfold np_min_int. cbn [ravel]. f_equal.
  assert (foldl Z.min x xs ∈ x :: xs) as Hm
    by (apply foldl_choice; intros a b; lia).
  pose proof (foldl_Zmin_lower xs x lo Hin). specialize (Hlow _ Hm). lia.
Qed.

(* ===================================================================== *)
(** * Rendering: the properties *)
(* ===================================================================== *)



Lemma length_colors (Mz : list float64) (d : float64) :
  length (colors Mz d) = length Mz.
Proof. unfold colors. by rewrite !length_map. Qed.

Lemma lookup_colors (Mz : list float64) (d : float64) (i : nat) (m : float64) :
  Mz !! i = Some m ->
  colors Mz d !! i = Some (F64.div (F64.mul (F64.of_Z 2) m) d).
Proof. intros H. unfold colors. by rewrite !lookup_map, H. Qed.



(** Drawing without [figax] is drawing on a new canvas. *)
Lemma plot_magnetization_on_canvas (pos mag : loc) (figax : option (loc * loc))
    (w : world) :
  plot_magnetization pos mag figax w =
  plot_magnetization pos mag (Some (handles figax w)) (canvas_of figax w).
Proof.
  destruct figax as [[fig ax]|]; [reflexivity|].
  apply plot_magnetization_new_canvas.
Qed.

Lemma canvas_of_handles (figax : option (loc * loc)) (w : world) :
  canvas_ok figax w ->
  exists f arts,
    figures (canvas_of figax w) !! (handles figax w).1 = Some f /\
    axes (canvas_of figax w) !! (handles figax w).2 = Some arts /\
    (figax = None -> f = Figure [length (axes w)] [] /\ arts = []).
Proof.
  destruct figax as [[fig ax]|]; cbn [canvas_ok canvas_of handles fst snd].
  - intros [[f Hf] [arts Ha]]. exists f, arts. done.
  - intros _. exists (Figure [length (axes w)] []), [].
    cbn [new_canvas figures axes]. by rewrite !(lookup_new _ _ []).
Qed.

(** ** The colours, for arrays of either dtype *)

Lemma where_from_bound (bs : list bool) (k : nat) :
  Forall (fun i => i < k + length bs) (where_from k bs).
Proof.
  revert k. induction bs as [|b bs IH]; intros k; cbn [where_from length];
    [constructor|].
  assert (Forall (fun i => i < k + S (length bs)) (where_from (S k) bs)) as H.
  { eapply Forall_impl; [exact (IH (S k))|]. intros i Hi. cbn beta in *. lia. }
  destruct b; [constructor; [lia|exact H]|exact H].
Qed.

Lemma take_rows_table {A} (c n : nat) (a : ndarray A) (idx : list nat) :
  is_table c n a -> Forall (fun i => i < n) idx ->
  exists rows,
    take_rows idx a = Ok (Arr2 c rows) /\
    length rows = length idx /\ Forall (fun r => length r = c) rows.
Proof.
  destruct a as [x|xs|c' rows0]; try done. intros (-> & <- & Hwf) Hidx.
  unfold take_rows.
  destruct (mapM (fun i : nat => rows0 !! i) idx) as [sel|] eqn:Hsel.
  - exists sel. split; [done|]. split; [symmetry; by eapply length_mapM|].
    apply mapM_Some_1 in Hsel. apply Forall_forall. intros r Hr.
    apply list_elem_of_lookup_1 in Hr as [i Hi].
    destruct (Forall2_lookup_r _ _ _ _ _ Hsel Hi) as (j & _ & Hj).
    rewrite Forall_forall in Hwf. apply Hwf. by eapply list_elem_of_lookup_2.
  - assert (is_Some (mapM (fun i : nat => rows0 !! i) idx)) as [? ?]; [|congruence].
    apply mapM_is_Some_2. eapply Forall_impl; [exact Hidx|].
    intros i Hi. by apply lookup_lt_is_Some_2.
Qed.

Lemma value_take_rows_table (c n : nat) (v : ndvalue) (idx : list nat) :
  table c n v -> Forall (fun i => i < n) idx ->
  exists v', value_take_rows idx v = Ok v' /\ table c (length idx) v'.
Proof.
  destruct v as [a|a]; cbn [table value_take_rows]; intros Ht Hidx;
    destruct (take_rows_table c n a idx Ht Hidx) as (rows & -> & Hl & Hwf);
    eexists; (split; [reflexivity|]); cbn; done.
Qed.

Lemma value_take_rows_length (c k : nat) (v v' : ndvalue) (idx : list nat) :
  value_take_rows idx v = Ok v' -> table c k v' -> k = length idx.
Proof.
  unfold value_take_rows, take_rows.
  destruct v as [[x|xs|c0 rows]|[x|xs|c0 rows]]; try discriminate;
    cbn [result_map];
    (destruct (mapM _ idx) as [sel|] eqn:Hsel; [|discriminate]);
    intros H; injection H as <-; cbn; intros (_ & <- & _);
    symmetry; by eapply length_mapM.
Qed.

Lemma apply_col_default {A} (d : A) (c j : nat) (rows : list (list A)) :
  Forall (fun r => length r = c) rows -> j < c ->
  apply_index2 (Col j) (Arr2 c rows) =
    Ok (Arr1 (map (fun r => default d (r !! j)) rows)).
Proof.
  intros Hwf Hj. unfold apply_index2.
  assert ((j <? c) = true) as -> by by apply Nat.ltb_lt.
  assert (mapM (fun r : list A => r !! j) rows =
          Some (map (fun r => default d (r !! j)) rows)) as ->; [|reflexivity].
  induction Hwf as [|r rows Hr _ IH]; [reflexivity|].
  cbn [mapM map].
  destruct (lookup_lt_is_Some_2 r j ltac:(lia)) as [x Hx].
  rewrite Hx. cbn. by rewrite IH.
Qed.

Lemma value_column_table (c n j : nat) (v : ndvalue) :
  table c n v -> j < c ->
  exists x, value_index2 (Col j) v = Ok x /\ length (value_ravel x) = n.
Proof.
  destruct v as [[x|xs|c' rows]|[x|xs|c' rows]]; try done;
    intros (-> & <- & Hwf) Hj; cbn [value_index2];
    first [ rewrite (apply_col_default F64.nan) by done
          | rewrite (apply_col_default 0%Z) by done ];
    eexists; (split; [reflexivity|]);
    unfold value_ravel; cbn; by rewrite ?length_map.
Qed.

(** Gathering the rows of a table at the positions of its own mask is
    filtering it. *)
Lemma gather_self {A} (keep : A -> bool) (P : A -> Prop)
    `{!forall x, Decision (P x)} (xs pre : list A) :
  (forall x, keep x = true <-> P x) ->
  mapM (fun i : nat => (pre ++ xs) !! i) (where_from (length pre) (map keep xs)) =
  Some (filter P xs).
Proof.
  intros Hk. revert pre. induction xs as [|x xs IH]; intros pre; [reflexivity|].
  cbn [map where_from]. specialize (IH (pre ++ [x])).
  rewrite length_app, Nat.add_1_r, <- app_assoc in IH. cbn [app] in IH.
  destruct (keep x) eqn:Hx.
  - rewrite filter_cons_True by by apply Hk.
    cbn [mapM]. rewrite lookup_new, IH. reflexivity.
  - rewrite filter_cons_False; [exact IH|]. rewrite <- Hk, Hx. discriminate.
Qed.

Lemma existsb_magnetized_int (m : list Z) :
  existsb I64.truthy m = true <-> magnetized_int m.
Proof.
  unfold magnetized_int. rewrite existsb_exists, Exists_exists.
  split; intros (x & Hin & Hx); exists x.
  - rewrite list_elem_of_In. split; [done|].
    unfold I64.truthy in Hx. apply negb_true_iff, Z.eqb_neq in Hx. done.
  - rewrite <- list_elem_of_In. split; [done|].
    unfold I64.truthy. by apply negb_true_iff, Z.eqb_neq.
Qed.

Lemma take_rows_self (c : nat) (Mg : list (list float64)) :
  take_rows (where_from 0 (map (existsb F64.truthy) Mg)) (Arr2 c Mg) =
  Ok (Arr2 c (filter magnetized Mg)).
Proof.
  unfold take_rows.
  pose proof (gather_self (existsb F64.truthy) magnetized Mg [] existsb_magnetized) as H.
  cbn [app length] in H. by rewrite H.
Qed.

Lemma take_rows_self_int (c : nat) (Mg : list (list Z)) :
  take_rows (where_from 0 (map (existsb I64.truthy) Mg)) (Arr2 c Mg) =
  Ok (Arr2 c (filter magnetized_int Mg)).
Proof.
  unfold take_rows.
  pose proof (gather_self (existsb I64.truthy) magnetized_int Mg []
                existsb_magnetized_int) as H.
  cbn [app length] in H. by rewrite H.
Qed.

Lemma Forall_filter_keeps {A} (Q P : A -> Prop) `{!forall x, Decision (P x)}
    (xs : list A) :
  Forall Q xs -> Forall Q (filter P xs).
Proof.
  intros HQ. apply Forall_forall. intros x [_ Hx]%list_elem_of_filter.
  rewrite Forall_forall in HQ. by apply HQ.
Qed.

(** A call on a given canvas, for positions of either dtype: what is drawn
    of the filtered magnetizations [vm'] with third column [m2]. *)
Lemma plot_magnetization_values_drawn (w : world) (pos mag fig ax : loc)
    (f : figure) (arts : list artist) (vp vm vm' m2 : ndvalue) (n k : nat)
    (bs : list bool) (hi lo : scalar) :
  array_data (arrays w) pos = Ok vp ->
  table 3 n vp ->
  figures w !! fig = Some f ->
  axes w !! ax = Some arts ->
  array_data (arrays w) mag = Ok vm ->
  value_any_axis1 vm = Ok bs ->
  length bs <= n ->
  value_take_rows (where_from 0 bs) vm = Ok vm' ->
  table 3 k vm' ->
  value_index2 (Col 2) vm' = Ok m2 ->
  value_max m2 = Ok hi ->
  value_min m2 = Ok lo ->
  exists X Y U V,
    let color := ravel (value_divide (value_times 2 m2) (scalar_minus hi lo)) in
    (plot_magnetization pos mag (Some (fig, ax)) w).1 = Ok (fig, ax) /\
    axes (plot_magnetization pos mag (Some (fig, ax)) w).2 !! ax =
      Some (arts ++ [PathCollection X Y 1 color; QuiverArtist X Y U V color "xy"]).
Proof.
  intros Hpos Htable Hfig Hax Hmag Hany Hbs Hselm Hkept Hm2 Hhi Hlo.
  assert (Forall (fun i => i < n) (where_from 0 bs)) as Hidx.
  { eapply Forall_impl; [apply where_from_bound|]. intros i Hi. cbn beta in *. lia. }
  destruct (value_take_rows_table 3 n vp _ Htable Hidx) as (vp' & Hselp & Htable').
  pose proof (value_take_rows_length _ _ _ _ _ Hselm Hkept) as ->.
  destruct (value_column_table 3 _ 0 vp' Htable' ltac:(lia)) as (x0 & Hx0 & Hl0).
  destruct (value_column_table 3 _ 1 vp' Htable' ltac:(lia)) as (x1 & Hx1 & Hl1).
  destruct (value_column_table 3 _ 2 vp' Htable' ltac:(lia)) as (x2 & Hx2 & Hl2).
  destruct (value_column_table 3 _ 0 vm' Hkept ltac:(lia)) as (m0 & Hm0 & Hlm0).
  destruct (value_column_table 3 _ 1 vm' Hkept ltac:(lia)) as (m1 & Hm1 & Hlm1).
  destruct (value_column_table 3 _ 2 vm' Hkept ltac:(lia)) as (m2' & Hm2' & Hlm2).
  assert (m2' = m2) as -> by congruence.
  exists (value_ravel x0), (value_ravel x1), (value_ravel m0), (value_ravel m1).
  cbv zeta.
  rewrite (plot_magnetization_run_values w pos mag fig ax f arts
             vp vm vp' vm' x0 x1 x2 m0 m1 m2 bs); try done; try congruence.
  cbv zeta. rewrite Hhi, Hlo. cbn [fst snd axes]. split; [reflexivity|].
  apply lookup_insert_app. by eapply lookup_lt_Some.
Qed.

Lemma wrap_in_range (z : Z) : I64.in_range z -> I64.wrap z = z.
Proof.
  unfold I64.in_range, I64.wrap. intros H.
  rewrite Z.mod_small by lia. lia.
Qed.

Lemma length_colors_int (Mz : list Z) (hi lo : Z) :
  length (colors_int Mz hi lo) = length Mz.
Proof. unfold colors_int. by rewrite length_map. Qed.

Lemma lookup_colors_int (Mz : list Z) (hi lo : Z) (i : nat) (m : Z) :
  Mz !! i = Some m ->
  colors_int Mz hi lo !! i =
    Some (F64.div (F64.of_Z (I64.wrap (2 * m))) (F64.of_Z (I64.wrap (hi - lo)))).
Proof. intros H. unfold colors_int. by rewrite lookup_map, H. Qed.

(** The colours of [float64] magnetizations, on a given canvas. *)
Lemma plot_magnetization_float_drawn (w : world) (pos mag fig ax : loc)
    (f : figure) (arts : list artist) (vp : ndvalue) (n : nat)
    (Mg : list (list float64)) (hi lo : float64) :
  array_data (arrays w) pos = Ok vp ->
  table 3 n vp ->
  figures w !! fig = Some f ->
  axes w !! ax = Some arts ->
  array_value (arrays w) mag = Ok (Arr2 3 Mg) ->
  Forall (fun r => length r = 3) Mg ->
  length Mg <= n ->
  np_max (Arr1 (column 2 (filter magnetized Mg))) = Ok hi ->
  np_min (Arr1 (column 2 (filter magnetized Mg))) = Ok lo ->
  exists X Y U V,
    let C := colors (column 2 (filter magnetized Mg)) (F64.sub hi lo) in
    (plot_magnetization pos mag (Some (fig, ax)) w).1 = Ok (fig, ax) /\
    axes (plot_magnetization pos mag (Some (fig, ax)) w).2 !! ax =
      Some (arts ++ [PathCollection X Y 1 C; QuiverArtist X Y U V C "xy"]).
Proof.
  intros Hpos Htable Hfig Hax Hmag HM Hlen Hhi Hlo.
  pose proof (Forall_filter_keeps _ magnetized Mg HM) as HM'.
  apply (plot_magnetization_values_drawn w pos mag fig ax f arts vp
           (Floats (Arr2 3 Mg)) (Floats (Arr2 3 (filter magnetized Mg)))
           (Floats (Arr1 (column 2 (filter magnetized Mg))))
           n (length (filter magnetized Mg))
           (map (existsb F64.truthy) Mg)
           (FloatScalar hi) (FloatScalar lo)); try done.
  - by apply array_data_float.
  - by rewrite length_map.
  - cbn [value_take_rows]. by rewrite take_rows_self.
  - cbn [value_index2]. by rewrite apply_col by (done || lia).
  - cbn [value_max]. by rewrite Hhi.
  - cbn [value_min]. by rewrite Hlo.
Qed.

(** The colours of [int64] magnetizations, on a given canvas. *)
Lemma plot_magnetization_int_drawn (w : world) (pos mag fig ax : loc)
    (f : figure) (arts : list artist) (vp : ndvalue) (n : nat)
    (Mg : list (list Z)) (hi lo : Z) :
  array_data (arrays w) pos = Ok vp ->
  table 3 n vp ->
  figures w !! fig = Some f ->
  axes w !! ax = Some arts ->
  array_ints (arrays w) mag = Ok (Arr2 3 Mg) ->
  Forall (fun r => length r = 3) Mg ->
  length Mg <= n ->
  np_max_int (Arr1 (column_int 2 (filter magnetized_int Mg))) = Ok hi ->
  np_min_int (Arr1 (column_int 2 (filter magnetized_int Mg))) = Ok lo ->
  exists X Y U V,
    let C := colors_int (column_int 2 (filter magnetized_int Mg)) hi lo in
    (plot_magnetization pos mag (Some (fig, ax)) w).1 = Ok (fig, ax) /\
    axes (plot_magnetization pos mag (Some (fig, ax)) w).2 !! ax =
      Some (arts ++ [PathCollection X Y 1 C; QuiverArtist X Y U V C "xy"]).
Proof.
  intros Hpos Htable Hfig Hax Hmag HM Hlen Hhi Hlo.
  pose proof (Forall_filter_keeps _ magnetized_int Mg HM) as HM'.
  destruct (plot_magnetization_values_drawn w pos mag fig ax f arts vp
           (Ints (Arr2 3 Mg)) (Ints (Arr2 3 (filter magnetized_int Mg)))
           (Ints (Arr1 (column_int 2 (filter magnetized_int Mg))))
           n (length (filter magnetized_int Mg))
           (map (existsb I64.truthy) Mg)
           (IntScalar hi) (IntScalar lo)) as (X & Y & U & V & H); try done.
  - by apply array_data_int.
  - by rewrite length_map.
  - cbn [value_take_rows]. by rewrite take_rows_self_int.
  - cbn [value_index2]. by rewrite (apply_col_default 0%Z) by (done || lia).
  - cbn [value_max]. by rewrite Hhi.
  - cbn [value_min]. by rewrite Hlo.
  - exists X, Y, U, V. cbv zeta in *.
    assert (ravel (value_divide
                     (value_times 2 (Ints (Arr1 (column_int 2 (filter magnetized_int Mg)))))
                     (scalar_minus (IntScalar hi) (IntScalar lo))) =
            colors_int (column_int 2 (filter magnetized_int Mg)) hi lo) as E.
    { unfold value_divide, colors_int.
      cbn [value_times value_floats amap ravel scalar_minus scalar_float].
      by rewrite !map_map. }
    by rewrite E in H.
Qed.

(** C6, as amended.  Whenever the greatest and the least of the kept
    out-of-plane components [Mz] differ, the call returns and the colour
    drawn for site [i], in the scatter and in the quiver alike, is
    [2 * Mz[i] / (hi - lo)], where [hi] and [lo] are any greatest and any
    least entry of [Mz] (NaN when an entry is NaN): in binary64 arithmetic
    for a [float64] array; for an [int64] array with the product and the
    difference taken as 64-bit integers and the division in binary64, which
    is the quotient of [2 * Mz[i]] and [hi - lo] whenever these two are in
    the [int64] range.  For [Mz = [1, 3, 5]] the colours are exactly 1/2,
    3/2 and 5/2 with either dtype.  The positions may be of either dtype
    and may have more rows than the magnetizations. *)
Theorem plot_magnetization_colors (pos mag : loc) (figax : option (loc * loc))
    (w : world) (vp : ndvalue) (n : nat) :
  array_data (arrays w) pos = Ok vp ->
  table 3 n vp ->
  canvas_ok figax w ->
  let out := plot_magnetization pos mag figax w in
  (forall (Mg : list (list float64)) (hi lo : float64),
     array_value (arrays w) mag = Ok (Arr2 3 Mg) ->
     Forall (fun r => length r = 3) Mg ->
     length Mg <= n ->
     let Mz := column 2 (filter magnetized Mg) in
     greatest Mz hi -> least Mz lo -> F64.eqb hi lo = false ->
     exists fig ax arts X Y U V C,
       out.1 = Ok (fig, ax) /\
       axes out.2 !! ax =
         Some (arts ++ [PathCollection X Y 1 C; QuiverArtist X Y U V C "xy"]) /\
       length C = length Mz /\
       (forall i m, Mz !! i = Some m ->
          C !! i = Some (F64.div (F64.mul (F64.of_Z 2) m) (F64.sub hi lo))) /\
       (Mz = [num 1; num 3; num 5] ->
          F64.to_Q <$> C = [Some (1 # 2)%Q; Some (3 # 2)%Q; Some (5 # 2)%Q])) /\
  (forall (Mg : list (list Z)) (hi lo : Z),
     array_ints (arrays w) mag = Ok (Arr2 3 Mg) ->
     Forall (fun r => length r = 3) Mg ->
     length Mg <= n ->
     let Mz := column_int 2 (filter magnetized_int Mg) in
     greatest_int Mz hi -> least_int Mz lo -> hi <> lo ->
     exists fig ax arts X Y U V C,
       out.1 = Ok (fig, ax) /\
       axes out.2 !! ax =
         Some (arts ++ [PathCollection X Y 1 C; QuiverArtist X Y U V C "xy"]) /\
       length C = length Mz /\
       (forall i m, Mz !! i = Some m ->
          C !! i = Some (F64.div (F64.of_Z (I64.wrap (2 * m)))
                                 (F64.of_Z (I64.wrap (hi - lo)))) /\
          (I64.in_range (2 * m) -> I64.in_range (hi - lo) ->
           C !! i = Some (F64.div (F64.of_Z (2 * m)) (F64.of_Z (hi - lo))))) /\
       (Mz = [1; 3; 5]%Z ->
          F64.to_Q <$> C = [Some (1 # 2)%Q; Some (3 # 2)%Q; Some (5 # 2)%Q])).
Proof.
  intros Hpos Htable Hcanvas. cbv zeta.
  destruct (canvas_of_handles figax w Hcanvas) as (f & arts & Hf & Ha & _).
  rewrite plot_magnetization_on_canvas.
  assert (arrays (canvas_of figax w) = arrays w) as Harr by by destruct figax.
  destruct (handles figax w) as [fig ax]. cbn [fst snd] in *.
  split.
  - intros Mg hi lo Hmag HM Hlen Hhi Hlo Hne.
    destruct (greatest_np_max _ _ Hhi) as [hi' Hhi'].
    destruct (least_np_min _ _ Hlo) as [lo' Hlo'].
    destruct (plot_magnetization_float_drawn (canvas_of figax w) pos mag fig ax
                f arts vp n Mg hi' lo') as (X & Y & U & V & Hok & Hdrawn);
      rewrite ?Harr; try done.
    assert (F64.sub hi' lo' = F64.sub hi lo) as Hd.
    { apply sub_same; [|  |exact Hne].
      - eapply greatest_same; [exact Hhi|by apply np_max_greatest].
      - eapply least_same; [exact Hlo|by apply np_min_least]. }
    rewrite Hd in Hdrawn.
    exists fig, ax, arts, X, Y, U, V,
      (colors (column 2 (filter magnetized Mg)) (F64.sub hi lo)).
    split; [exact Hok|]. split; [exact Hdrawn|].
    split; [apply length_colors|]. split; [intros i m; apply lookup_colors|].
    intros HMz. rewrite <- Hd. rewrite HMz in *.
    vm_compute in Hhi', Hlo'. injection Hhi' as <-. injection Hlo' as <-.
    vm_compute. reflexivity.
  - intros Mg hi lo Hmag HM Hlen Hhi Hlo Hne.
    destruct (plot_magnetization_int_drawn (canvas_of figax w) pos mag fig ax
                f arts vp n Mg hi lo) as (X & Y & U & V & Hok & Hdrawn);
      rewrite ?Harr; try done;
      [by apply np_max_int_greatest|by apply np_min_int_least|].
    exists fig, ax, arts, X, Y, U, V,
      (colors_int (column_int 2 (filter magnetized_int Mg)) hi lo).
    split; [exact Hok|]. split; [exact Hdrawn|].
    split; [apply length_colors_int|]. split.
    { intros i m Hi. rewrite (lookup_colors_int _ hi lo i m Hi).
      split; [reflexivity|]. intros H1 H2. by rewrite !wrap_in_range. }
    intros HMz. rewrite HMz in *.
    assert (hi = 5%Z) as ->.
    { destruct Hhi as [Hin Hup].
      assert ((5 <= hi)%Z) by (apply Hup; repeat constructor).
      repeat (apply elem_of_cons in Hin as [->|Hin]; [lia|]).
      by apply elem_of_nil in Hin. }
    assert (lo = 1%Z) as ->.
    { destruct Hlo as [Hin Hlow].
      assert ((lo <= 1)%Z) by (apply Hlow; repeat constructor).
      repeat (apply elem_of_cons in Hin as [->|Hin]; [lia|]).
      by apply elem_of_nil in Hin. }
    vm_compute. reflexivity.
Qed.

(** The example of C6: out-of-plane components 1, 3 and 5, as [float64]
    and as [int64] numbers. *)
Lemma plot_magnetization_colors_witness :
  (let out := plot_magnetization 0 1 None graded_world in
   exists fig ax arts X Y U V C,
     out.1 = Ok (fig, ax) /\
     axes out.2 !! ax =
       Some (arts ++ [PathCollection X Y 1 C; QuiverArtist X Y U V C "xy"]) /\
     length C = 3 /\
     F64.to_Q <$> C = [Some (1 # 2)%Q; Some (3 # 2)%Q; Some (5 # 2)%Q]) /\
  (let out := plot_magnetization 0 1 None graded_int_world in
   exists fig ax arts X Y U V C,
     out.1 = Ok (fig, ax) /\
     axes out.2 !! ax =
       Some (arts ++ [PathCollection X Y 1 C; QuiverArtist X Y U V C "xy"]) /\
     length C = 3 /\
     F64.to_Q <$> C = [Some (1 # 2)%Q; Some (3 # 2)%Q; Some (5 # 2)%Q]).
Proof.
  cbv zeta. split.
  - destruct (plot_magnetization_colors 0 1 None graded_world
                (Floats (Arr2 3 [ [num 0; num 0; num 0]; [num 1; num 1; num 0];
                                  [num 2; num 2; num 0] ])) 3
                eq_refl ltac:(repeat constructor) I) as [Hfloat _].
    destruct (Hfloat
                [ [num 1; num 0; num 1]; [num 0; num 1; num 3]; [num 0; num 0; num 5] ]
                (num 5) (num 1) eq_refl ltac:(repeat constructor) ltac:(cbn; lia))
      as (fig & ax & arts & X & Y & U & V & C & Hok & Hdrawn & HlenC & _ & Hex).
    + change (greatest [num 1; num 3; num 5] (num 5)).
      split; [repeat constructor|]. cbn. intros x Hx.
      repeat (apply elem_of_cons in Hx as [->|Hx]; [reflexivity|]).
      by apply elem_of_nil in Hx.
    + change (least [num 1; num 3; num 5] (num 1)).
      split; [repeat constructor|]. cbn. intros x Hx.
      repeat (apply elem_of_cons in Hx as [->|Hx]; [reflexivity|]).
      by apply elem_of_nil in Hx.
    + reflexivity.
    + exists fig, ax, arts, X, Y, U, V, C.
      split; [exact Hok|]. split; [exact Hdrawn|]. split; [exact HlenC|].
      apply Hex. reflexivity.
  - destruct (plot_magnetization_colors 0 1 None graded_int_world
                (Ints (Arr2 3 [ [0; 0; 0]; [1; 1; 0]; [2; 2; 0] ]%Z)) 3
                eq_refl ltac:(repeat constructor) I) as [_ Hint].
    destruct (Hint [ [1; 0; 1]; [0; 1; 3]; [0; 0; 5] ]%Z 5%Z 1%Z
                eq_refl ltac:(repeat constructor) ltac:(cbn; lia))
      as (fig & ax & arts & X & Y & U & V & C & Hok & Hdrawn & HlenC & _ & Hex).
    + change (greatest_int [1; 3; 5]%Z 5%Z).
      split; [repeat constructor|]. intros x Hx.
      repeat (apply elem_of_cons in Hx as [->|Hx]; [lia|]).
      by apply elem_of_nil in Hx.
    + change (least_int [1; 3; 5]%Z 1%Z).
      split; [repeat constructor|]. intros x Hx.
      repeat (apply elem_of_cons in Hx as [->|Hx]; [lia|]).
      by apply elem_of_nil in Hx.
    + lia.
    + exists fig, ax, arts, X, Y, U, V, C.
      split; [exact Hok|]. split; [exact Hdrawn|]. split; [exact HlenC|].
      apply Hex. reflexivity.
Defined.

(** Where C6 as it was written fails: two sites with [int64] out-of-plane
    components [2^62] and 0.  The greatest and the least differ, and the
    quotient [2 * Mz[0] / (hi - lo)] is 2; but twice [2^62] is not an
    [int64] number, the product wraps around to [-2^63], and the colour
    drawn for the first site is [-2]. *)
Lemma plot_magnetization_colors_int64_wraps :
  let Mg := [ [0; 0; 2 ^ 62]; [1; 0; 0] ]%Z in
  let Mz := [2 ^ 62; 0]%Z in
  let C := colors_int Mz (2 ^ 62) 0 in
  let out := plot_magnetization 0 1 None steep_int_world in
  array_ints (arrays steep_int_world) 1 = Ok (Arr2 3 Mg) /\
  column_int 2 (filter magnetized_int Mg) = Mz /\
  greatest_int Mz (2 ^ 62) /\ least_int Mz 0 /\ (2 ^ 62 <> 0)%Z /\
  out.1 = Ok (0, 0) /\
  axes out.2 !! 0 =
    Some [ PathCollection [num 0; num 1] [num 0; num 1] 1 C;
           QuiverArtist [num 0; num 1] [num 0; num 1]
                        [num 0; num 1] [num 0; num 0] C "xy" ] /\
  F64.to_Q <$> C = [Some (- 2 # 1)%Q; Some 0%Q] /\
  ~ (- 2 # 1 == 2 * inject_Z (2 ^ 62) / (inject_Z (2 ^ 62) - inject_Z 0))%Q.
Proof.
  cbv zeta. split; [reflexivity|]. split; [reflexivity|].
  split.
  { split; [repeat constructor|]. intros x Hx.
    repeat (apply elem_of_cons in Hx as [->|Hx]; [lia|]).
    by apply elem_of_nil in Hx. }
  split.
  { split; [repeat constructor|]. intros x Hx.
    repeat (apply elem_of_cons in Hx as [->|Hx]; [lia|]).
    by apply elem_of_nil in Hx. }
  split; [lia|].
  split; [vm_compute; reflexivity|].
  split; [vm_compute; reflexivity|].
  split; [vm_compute; reflexivity|].
  intros H. vm_compute in H. discriminate.
Qed.




(* ===================================================================== *)
(** * Loading: further properties *)
(* ===================================================================== *)

(** [load_csv] run with either header flag. *)
Lemma load_csv_run_any (filename : string) (header : bool) (w : world) :
  load_csv filename header w =
  if String.eqb (py_suffix 4 filename) ".csv" then
    match files w !! filename with
    | None => (Raise (FileNotFoundError filename), logged (Opened filename) w)
    | Some recs =>
        match read_csv_frame (if header then HeaderInfer else HeaderNone) recs with
        | Ok df => split_table (logged (Opened filename) w)
                     (Arr2 (df_columns df) (df_values df))
        | Raise e => (Raise e, logged (Opened filename) w)
        end
    end
  else (Raise (ValueError msg_not_csv), w).
Proof.
  unfold load_csv.
  destruct (String.eqb (py_suffix 4 filename) ".csv"); cbn [negb]; [|reflexivity].
  assert ((if negb header then pd_read_csv filename HeaderNone
           else pd_read_csv filename HeaderInfer) =
          pd_read_csv filename (if header then HeaderInfer else HeaderNone)) as ->
    by by destruct header.
  unfold pd_read_csv, np_array, read_file, file_contents, emit. run.
  destruct (files w !! filename) as [recs|]; [|reflexivity]. run.
  destruct (read_csv_frame _ recs) as [df|e]; [|reflexivity].
  rewrite <- split_run. run. reflexivity.
Qed.

(** Characters of a concatenation. *)
Lemma list_ascii_app (s t : string) :
  list_ascii_of_string (s +:+ t) = list_ascii_of_string s ++ list_ascii_of_string t.
Proof.
  induction s as [|c s IH]; [reflexivity|].
  change (String c s +:+ t) with (String c (s +:+ t)). cbn. by rewrite IH.
Qed.

Lemma invalid_extension_is_not_csv_message (filename : string) :
  msg_invalid_extension filename <> msg_not_csv.
Proof.
  unfold msg_invalid_extension, msg_not_csv. intros H.
  apply (f_equal (fun s => reverse (list_ascii_of_string s) !! 11)) in H.
  rewrite list_ascii_app, reverse_app in H.
  rewrite lookup_app_l in H by (cbn; lia).
  vm_compute in H. discriminate.
Qed.

(** X1.  [load_csv] called on a name that does not end in [.csv] raises
    its own [ValueError] and leaves the world exactly as it was: nothing is
    printed, no file is opened, no array is made.  Through [load_data] this
    error never comes out, whatever the name and the files. *)
Theorem load_csv_guard (filename : string) (header : bool) (w : world) :
  py_suffix 4 filename <> ".csv" ->
  load_csv filename header w = (Raise (ValueError msg_not_csv), w) /\
  forall f' w', (load_data f' w').1 <> Raise (ValueError msg_not_csv).
Proof.
  intros Hcsv. split.
  { rewrite load_csv_run_any. apply String.eqb_neq in Hcsv. by rewrite Hcsv. }
  intros f' w'. rewrite load_data_run. cbv zeta.
  destruct (py_in "." (py_suffix 5 f')).
  - destruct (String.eqb (py_suffix 4 f') ".csv") eqn:E.
    + rewrite load_csv_run, E.
      destruct (files _ !! f') as [recs|]; [|discriminate].
      destruct (read_csv_frame HeaderNone recs) as [df|e] eqn:Hdf.
      * unfold split_table. destruct (df_columns df =? 6); discriminate.
      * unfold read_csv_frame in Hdf.
        destruct (nonblank recs) as [|r rest]; [by injection Hdf as <-|].
        unfold frame_rows in Hdf. cbn [snd fst].
        destruct (forallb _ _); cbn in Hdf; [discriminate|]. by injection Hdf as <-.
    + cbn [fst]. intros H. injection H as H.
      by apply invalid_extension_is_not_csv_message in H.
  - rewrite load_oomf_run.
    destruct (files _ !! f') as [recs|]; [|discriminate].
    destruct (loadtxt_array recs) as [a|e] eqn:Ha.
    + unfold split_table. destruct a as [x|xs|c rows]; try discriminate.
      destruct (c =? 6); discriminate.
    + unfold loadtxt_array in Ha.
      destruct (nonblank recs) as [|r rest]; [discriminate|].
      destruct (forallb _ _); [discriminate|]. by injection Ha as <-.
Qed.

Lemma load_csv_guard_witness :
  load_csv "sites.txt" true csv_world = (Raise (ValueError msg_not_csv), csv_world) /\
  forall f' w', (load_data f' w').1 <> Raise (ValueError msg_not_csv).
Proof. apply (load_csv_guard "sites.txt" true csv_world). discriminate. Defined.

Lemma read_csv_frame_header_six (h : list float64) (recs : records) :
  Forall (fun r => length r = 6) (h :: recs) ->
  read_csv_frame HeaderInfer (h :: recs) = Ok (Frame 6 recs).
Proof.
  intros H. unfold read_csv_frame.
  rewrite (nonblank_id (h :: recs)) by by apply six_fields_nonblank.
  apply Forall_cons in H as [Hh Hrecs].
  assert (max (length h) (match recs with [] => 0 | r :: _ => length r end) = 6) as ->.
  { rewrite Hh. destruct recs as [|r recs']; [reflexivity|].
    apply Forall_cons in Hrecs as [-> _]. reflexivity. }
  rewrite frame_rows_full by done. cbn [result_bind]. rewrite Hh.
  do 2 f_equal. clear. induction recs as [|r recs IH]; [reflexivity|].
  cbn [map]. by rewrite IH.
Qed.

(** X2.  With [header=True] the first record of a comma-separated file is
    taken for the column labels and is not data: of [1 + N] records of six
    fields each, the [N] that follow the first are loaded, in order; a
    file of the label line alone loads as two arrays of shape [(0, 3)]. *)
Theorem load_csv_header_skips_first_record
    (filename : string) (w : world) (h : list float64) (recs : records) :
  py_suffix 4 filename = ".csv" ->
  files w !! filename = Some (h :: recs) ->
  Forall (fun r => length r = 6) (h :: recs) ->
  exists P Mg,
    loaded (load_csv filename true w) = Ok (P, Mg) /\
    shape P = [length recs; 3] /\ shape Mg = [length recs; 3] /\
    (forall i r, recs !! i = Some r ->
       row P i = Some (take 3 r) /\ row Mg i = Some (drop 3 r)).
Proof.
  intros Hcsv Hfile Hsix.
  destruct (table_halves_six recs) as (P & Mg & Hh & HP & HM & Hrows & _).
  exists P, Mg. split; [|done].
  rewrite load_csv_run_any, Hcsv, Hfile, String.eqb_refl.
  rewrite read_csv_frame_header_six by done.
  rewrite loaded_split_table. exact Hh.
Qed.

Lemma load_csv_header_skips_first_record_witness :
  exists P Mg,
    loaded (load_csv "sites.csv" true csv_world) = Ok (P, Mg) /\
    shape P = [1; 3] /\ shape Mg = [1; 3] /\
    (forall i r, [ [num 7; num 8; num 9; num 0; num 0; num 1] ] !! i = Some r ->
       row P i = Some (take 3 r) /\ row Mg i = Some (drop 3 r)).
Proof.
  apply (load_csv_header_skips_first_record "sites.csv" csv_world
           [num 1; num 2; num 3; num 4; num 5; num 6]
           [ [num 7; num 8; num 9; num 0; num 0; num 1] ]).
  - reflexivity.
  - reflexivity.
  - repeat constructor.
Defined.

(** ** When a load succeeds *)

Lemma squeeze2_Arr2 {A} (n c : nat) (r : list A) (rest rows : list (list A)) :
  squeeze2 n (r :: rest) = Arr2 c rows ->
  rest <> [] /\ n <> 1 /\ c = n /\ rows = r :: rest.
Proof.
  unfold squeeze2. intros H.
  destruct rest as [|r' rest].
  - destruct r as [|x [|y r]]; try discriminate.
    destruct n as [|[|n]]; discriminate.
  - destruct r as [|x [|y r]], n as [|[|n]]; try discriminate;
      injection H as <- <-; done.
Qed.

Lemma forallb_same_length (n : nat) (rows : list (list float64)) :
  forallb (fun r => length r =? n) rows = true <->
  Forall (fun r => length r = n) rows.
Proof.
  rewrite forallb_forall, Forall_forall. split; intros H r Hr.
  - apply Nat.eqb_eq, H. by apply list_elem_of_In.
  - apply Nat.eqb_eq, H. by apply list_elem_of_In.
Qed.

Lemma forallb_at_most (n : nat) (rows : list (list float64)) :
  forallb (fun r => length r <=? n) rows = true <->
  Forall (fun r => length r <= n) rows.
Proof.
  rewrite forallb_forall, Forall_forall. split; intros H r Hr.
  - apply Nat.leb_le, H. by apply list_elem_of_In.
  - apply Nat.leb_le, H. by apply list_elem_of_In.
Qed.

(** [np.loadtxt] gives a 2-dimensional array only for two or more lines
    with the same number of fields, more than one. *)
Lemma loadtxt_array_Arr2_inv (recs : records) (c : nat) (rows : list (list float64)) :
  loadtxt_array recs = Ok (Arr2 c rows) ->
  rows = nonblank recs /\ 2 <= length rows /\ c <> 1 /\
  Forall (fun r => length r = c) rows.
Proof.
  unfold loadtxt_array.
  destruct (nonblank recs) as [|r rest]; [discriminate|].
  destruct (forallb _ rest) eqn:Hall; [|discriminate].
  intros H. injection H as H.
  apply squeeze2_Arr2 in H as (Hrest & Hn & -> & ->).
  split; [done|]. split; [destruct rest; [done|cbn; lia]|]. split; [done|].
  constructor; [done|]. by apply forallb_same_length.
Qed.




Lemma length_pad_row (width : nat) (r : list float64) :
  length r <= width -> length (pad_row width r) = width.
Proof. intros H. unfold pad_row. rewrite length_app, length_replicate. lia. Qed.

(** What [pd.read_csv(..., header=None)] accepts, and the frame it gives. *)
Lemma read_csv_frame_inv (recs : records) (df : DataFrame) :
  read_csv_frame HeaderNone recs = Ok df <->
  exists r rest,
    nonblank recs = r :: rest /\
    Forall (fun r' => length r' <= length r) rest /\
    df = Frame (length r) (map (pad_row (length r)) (r :: rest)).
Proof.
  unfold read_csv_frame, frame_rows.
  destruct (nonblank recs) as [|r rest].
  { split; [discriminate|]. by intros (? & ? & ? & _). }
  cbn [forallb]. rewrite Nat.leb_refl. cbn [andb].
  destruct (forallb _ rest) eqn:Hall.
  - apply forallb_at_most in Hall. cbn [result_bind]. split.
    + intros H. injection H as <-. by exists r, rest.
    + intros (r0 & rest0 & E & _ & ->). by injection E as <- <-.
  - split; [discriminate|].
    intros (r0 & rest0 & E & Hle & _). injection E as <- <-.
    apply forallb_at_most in Hle. congruence.
Qed.

(** X4.  [load_csv], without a header, returns arrays exactly when the
    name ends in [.csv], the file is there, its first line (blank lines
    apart) has six fields and no later line has more than six. *)
Theorem load_csv_succeeds_iff (filename : string) (w : world) :
  (exists pm, (load_csv filename false w).1 = Ok pm) <->
  (py_suffix 4 filename = ".csv" /\
   exists recs r rest,
     files w !! filename = Some recs /\
     nonblank recs = r :: rest /\
     length r = 6 /\
     Forall (fun r' => length r' <= 6) rest).
Proof.
  rewrite load_csv_run. split.
  - intros [pm Hok].
    destruct (String.eqb_spec (py_suffix 4 filename) ".csv") as [Hcsv|];
      [|discriminate].
    split; [exact Hcsv|].
    destruct (files w !! filename) as [recs|]; [|discriminate].
    destruct (read_csv_frame HeaderNone recs) as [df|e] eqn:Hdf; [|discriminate].
    apply read_csv_frame_inv in Hdf as (r & rest & Hnb & Hle & ->).
    unfold split_table in Hok. cbn [df_columns] in Hok.
    destruct (length r =? 6) eqn:Hc; [|discriminate].
    apply Nat.eqb_eq in Hc. exists recs, r, rest. rewrite Hc in Hle. done.
  - intros (-> & recs & r & rest & -> & Hnb & Hr & Hle).
    rewrite String.eqb_refl.
    assert (read_csv_frame HeaderNone recs =
            Ok (Frame (length r) (map (pad_row (length r)) (r :: rest)))) as ->.
    { apply read_csv_frame_inv. exists r, rest. by rewrite Hr. }
    unfold split_table. cbn [df_columns]. rewrite Hr. cbn. eauto.
Qed.

(** X5.  A line with fewer than six fields is not an error for [load_csv]:
    its missing trailing fields are NaN in the arrays that come out. *)
Theorem load_csv_pads_short_records (filename : string) (w : world)
    (recs : records) (r : list float64) (rest : records) :
  py_suffix 4 filename = ".csv" ->
  files w !! filename = Some recs ->
  nonblank recs = r :: rest ->
  length r = 6 ->
  Forall (fun r' => length r' <= 6) rest ->
  exists P Mg,
    loaded (load_csv filename false w) = Ok (P, Mg) /\
    shape P = [length (r :: rest); 3] /\ shape Mg = [length (r :: rest); 3] /\
    (forall i ri, (r :: rest) !! i = Some ri ->
       row P i = Some (take 3 (ri ++ replicate (6 - length ri) F64.nan)) /\
       row Mg i = Some (drop 3 (ri ++ replicate (6 - length ri) F64.nan))).
Proof.
  intros Hcsv Hfile Hnb Hr Hle.
  rewrite loaded_load_csv, Hcsv, Hfile, String.eqb_refl.
  assert (read_csv_frame HeaderNone recs =
          Ok (Frame 6 (map (pad_row 6) (r :: rest)))) as ->.
  { apply read_csv_frame_inv. exists r, rest. by rewrite Hr. }
  cbn [result_bind df_columns df_values].
  destruct (table_halves_six (map (pad_row 6) (r :: rest)))
    as (P & Mg & Hh & HP & HM & Hrows & _).
  exists P, Mg. rewrite length_map in HP, HM. split; [exact Hh|].
  split; [exact HP|]. split; [exact HM|].
  intros i ri Hi. apply Hrows. by rewrite lookup_map, Hi.
Qed.

Lemma load_csv_pads_short_records_witness :
  exists P Mg,
    loaded (load_csv "short.csv" false edge_world) = Ok (P, Mg) /\
    shape P = [2; 3] /\ shape Mg = [2; 3] /\
    row Mg 1 = Some [num 1; F64.nan; F64.nan].
Proof.
  destruct (load_csv_pads_short_records "short.csv" edge_world
              [ [num 1; num 2; num 3; num 4; num 5; num 6];
                [num 7; num 8; num 9; num 1] ]
              [num 1; num 2; num 3; num 4; num 5; num 6]
              [ [num 7; num 8; num 9; num 1] ])
    as (P & Mg & Hl & HP & HM & Hrows).
  - reflexivity.
  - reflexivity.
  - reflexivity.
  - reflexivity.
  - repeat constructor.
  - exists P, Mg. split; [exact Hl|]. split; [exact HP|]. split; [exact HM|].
    apply (Hrows 1 [num 7; num 8; num 9; num 1]). reflexivity.
Defined.

(** ** What every successful load hands out *)

Lemma read_csv_frame_wf (recs : records) (df : DataFrame) :
  read_csv_frame HeaderNone recs = Ok df ->
  Forall (fun r => length r = df_columns df) (df_values df).
Proof.
  intros (r & rest & _ & Hle & ->)%read_csv_frame_inv.
  cbn [df_columns df_values]. apply Forall_forall.
  intros x Hx%list_elem_of_In%in_map_iff. destruct Hx as (r0 & <- & Hin).
  apply length_pad_row. apply in_inv in Hin as [<-|Hin]; [done|].
  rewrite Forall_forall in Hle. by apply Hle, list_elem_of_In.
Qed.

Lemma table_halves_wf (c : nat) (rows : list (list float64))
    (P Mg : ndarray float64) :
  Forall (fun r => length r = c) rows ->
  table_halves (Arr2 c rows) = Ok (P, Mg) ->
  exists Prows Mrows,
    P = Arr2 3 Prows /\ Mg = Arr2 3 Mrows /\
    length Prows = length rows /\ length Mrows = length rows /\
    Forall (fun r => length r = 3) Prows /\
    Forall (fun r => length r = 3) Mrows.
Proof.
  intros Hwf H. unfold table_halves in H.
  destruct (c =? 6) eqn:Hc; [|discriminate].
  apply Nat.eqb_eq in Hc as ->. injection H as <- <-.
  eexists _, _. split; [reflexivity|]. split; [reflexivity|].
  rewrite !length_map. split; [done|]. split; [done|].
  split; apply Forall_forall; intros x Hx%list_elem_of_In%in_map_iff;
    destruct Hx as (r & <- & Hin%list_elem_of_In);
    rewrite Forall_forall in Hwf; specialize (Hwf r Hin); unfold slice_row.
  - rewrite length_drop, length_take. lia.
  - rewrite length_drop. lia.
Qed.

(** A load that succeeds has parsed a table with rows of one length and
    hands out its two halves. *)
Lemma loaded_load_data_inv (filename : string) (w : world) (P Mg : ndarray float64) :
  loaded (load_data filename w) = Ok (P, Mg) ->
  exists c rows, Forall (fun r => length r = c) rows /\
                 table_halves (Arr2 c rows) = Ok (P, Mg).
Proof.
  rewrite loaded_load_data, loaded_load_csv, loaded_load_oomf. intros H.
  destruct (py_in "." (py_suffix 5 filename)).
  - destruct (String.eqb (py_suffix 4 filename) ".csv"); [|discriminate].
    destruct (files w !! filename) as [recs|]; [|discriminate].
    destruct (read_csv_frame HeaderNone recs) as [df|e] eqn:Hdf; [|discriminate].
    exists (df_columns df), (df_values df). split; [|exact H].
    by apply read_csv_frame_wf in Hdf.
  - destruct (files w !! filename) as [recs|]; [|discriminate].
    destruct (loadtxt_array recs) as [a|e] eqn:Ha; [|discriminate].
    cbn [result_bind] in H. destruct a as [x|xs|c rows]; try discriminate.
    exists c, rows. split; [|exact H].
    by apply loadtxt_array_Arr2_inv in Ha as (_ & _ & _ & Hall).
Qed.

(** X6.  Whatever the file, the two arrays of a load that succeeds are
    2-dimensional with three columns and the same number of rows. *)
Theorem load_data_hands_out_aligned_tables (filename : string) (w : world)
    (P Mg : ndarray float64) :
  loaded (load_data filename w) = Ok (P, Mg) ->
  exists Prows Mrows,
    P = Arr2 3 Prows /\ Mg = Arr2 3 Mrows /\
    length Prows = length Mrows /\
    Forall (fun r => length r = 3) Prows /\
    Forall (fun r => length r = 3) Mrows.
Proof.
  intros H.
  destruct (loaded_load_data_inv filename w P Mg H) as (c & rows & Hwf & Hh).
  destruct (table_halves_wf c rows P Mg Hwf Hh)
    as (Prows & Mrows & -> & -> & HlP & HlM & HwP & HwM).
  exists Prows, Mrows. repeat split; try done. congruence.
Qed.

Lemma load_data_hands_out_aligned_tables_witness :
  exists P Mg Prows Mrows,
    loaded (load_data "short.csv" edge_world) = Ok (P, Mg) /\
    P = Arr2 3 Prows /\ Mg = Arr2 3 Mrows /\
    length Prows = length Mrows /\
    Forall (fun r => length r = 3) Prows /\
    Forall (fun r => length r = 3) Mrows.
Proof.
  eexists _, _.
  destruct (load_data_hands_out_aligned_tables "short.csv" edge_world _ _ eq_refl)
    as (Prows & Mrows & H).
  exists Prows, Mrows. split; [reflexivity|exact H].
Defined.

(** ** What a load does to the world *)

Lemma split_table_canvas (w : world) (a : ndarray float64) :
  trace (split_table w a).2 = trace w /\
  axes (split_table w a).2 = axes w /\
  figures (split_table w a).2 = figures w.
Proof.
  unfold split_table. destruct a as [x|xs|c rows]; try done.
  by destruct (c =? 6).
Qed.

Lemma load_oomf_effects (filename : string) (w : world) :
  trace (load_oomf filename w).2 =
    trace w ++ match files w !! filename with
               | Some _ => [Opened filename]
               | None => []
               end /\
  axes (load_oomf filename w).2 = axes w /\
  figures (load_oomf filename w).2 = figures w.
Proof.
  rewrite load_oomf_run.
  destruct (files w !! filename) as [recs|]; [|by rewrite app_nil_r].
  destruct (loadtxt_array recs) as [a|e]; [|done].
  apply (split_table_canvas (logged (Opened filename) w)).
Qed.

Lemma load_csv_effects (filename : string) (w : world) :
  py_suffix 4 filename = ".csv" ->
  trace (load_csv filename false w).2 = trace w ++ [Opened filename] /\
  axes (load_csv filename false w).2 = axes w /\
  figures (load_csv filename false w).2 = figures w.
Proof.
  intros Hcsv. rewrite load_csv_run, Hcsv, String.eqb_refl.
  destruct (files w !! filename) as [recs|]; [|done].
  destruct (read_csv_frame HeaderNone recs) as [df|e]; [|done].
  apply (split_table_canvas (logged (Opened filename) w)).
Qed.

(** A load leaves the canvas alone. *)
Lemma load_data_canvas (filename : string) (w : world) :
  axes (load_data filename w).2 = axes w /\
  figures (load_data filename w).2 = figures w.
Proof.
  rewrite load_data_run. cbv zeta.
  destruct (py_in "." (py_suffix 5 filename)).
  - destruct (String.eqb_spec (py_suffix 4 filename) ".csv") as [Hcsv|Hcsv]; [|done].
    by destruct (load_csv_effects filename
                   (logged (Printed ("loading " +:+ filename +:+ " ...")) w) Hcsv)
      as (_ & -> & ->).
  - by destruct (load_oomf_effects filename
                   (logged (Printed ("loading " +:+ filename +:+ " ...")) w))
      as (_ & -> & ->).
Qed.


(** X8.  The arrays of a load that succeeds are not copies: the load has
    added three array objects, the parsed table and two views on it, and
    position and magnetization are those two views, columns [:3] and [3:]
    of the one table. *)
Theorem load_data_returns_views (filename : string) (w w' : world) (pos mag : loc) :
  load_data filename w = (Ok (pos, mag), w') ->
  let n := length (arrays w) in
  pos = S n /\ mag = S (S n) /\
  exists rows,
    arrays w' =
      arrays w ++ [ Owned (Arr2 6 rows);
                    View n [Cols 0 (Some 3)]; View n [Cols 3 None] ].
Proof.
  cbv zeta. rewrite load_data_run. cbv zeta. intros H.
  assert (exists w1 a, arrays w1 = arrays w /\ split_table w1 a = (Ok (pos, mag), w'))
    as (w1 & a & Hw1 & Hs).
  { destruct (py_in "." (py_suffix 5 filename)).
    - destruct (String.eqb (py_suffix 4 filename) ".csv") eqn:E; [|discriminate].
      rewrite load_csv_run, E in H.
      destruct (files _ !! filename) as [recs|]; [|discriminate].
      destruct (read_csv_frame HeaderNone recs) as [df|e]; [|discriminate].
      eexists _, _. split; [|exact H]. reflexivity.
    - rewrite load_oomf_run in H.
      destruct (files _ !! filename) as [recs|]; [|discriminate].
      destruct (loadtxt_array recs) as [a|e]; [|discriminate].
      eexists _, _. split; [|exact H]. reflexivity. }
  unfold split_table in Hs. rewrite Hw1 in Hs.
  destruct a as [x|xs|c rows]; try discriminate.
  destruct (c =? 6) eqn:Hc; [|discriminate].
  apply Nat.eqb_eq in Hc as ->. injection Hs as <- <- <-.
  split; [done|]. split; [done|]. by exists rows.
Qed.

Lemma load_data_returns_views_witness :
  exists rows,
    arrays (load_data "data" oomf_world).2 =
      [ Owned (Arr2 6 rows); View 0 [Cols 0 (Some 3)]; View 0 [Cols 3 None] ].
Proof.
  destruct (load_data_returns_views "data" oomf_world
              (load_data "data" oomf_world).2 1 2 eq_refl)
    as (_ & _ & rows & H).
  exists rows. exact H.
Defined.



(** X10.  A file without data (empty, or blank lines only): in whitespace
    mode the empty 1-dimensional array makes the column check raise
    [IndexError]; in comma mode pandas raises [EmptyDataError]. *)
Theorem load_data_empty_file (filename : string) (w : world) (recs : records) :
  files w !! filename = Some recs ->
  nonblank recs = [] ->
  (py_in "." (py_suffix 5 filename) = false ->
   (load_data filename w).1 = Raise (IndexError msg_tuple_index)) /\
  (py_suffix 4 filename = ".csv" ->
   (load_data filename w).1 = Raise (EmptyDataError msg_no_columns)).
Proof.
  intros Hfile Hnb. rewrite load_data_run. cbv zeta. split.
  - intros ->. rewrite load_oomf_run. cbn [logged set_trace files].
    rewrite Hfile. unfold loadtxt_array. by rewrite Hnb.
  - intros Hcsv.
    rewrite (csv_suffix_has_dot _ Hcsv), Hcsv, String.eqb_refl, load_csv_run.
    rewrite Hcsv, String.eqb_refl. cbn [logged set_trace files].
    rewrite Hfile. unfold read_csv_frame. by rewrite Hnb.
Qed.

Lemma load_data_empty_file_witness :
  (load_data "empty" edge_world).1 = Raise (IndexError msg_tuple_index) /\
  (load_data "empty.csv" edge_world).1 = Raise (EmptyDataError msg_no_columns).
Proof.
  split.
  - apply (load_data_empty_file "empty" edge_world [ [] ]); reflexivity.
  - apply (load_data_empty_file "empty.csv" edge_world [ [] ]); reflexivity.
Defined.

(** X11.  Lines of unequal length.  In whitespace mode any line whose
    field count differs from the first makes [np.loadtxt] raise its
    [ValueError], which is not the one of the column check.  In comma mode
    a line with more fields than the first makes pandas raise
    [ParserError]. *)
Theorem load_data_ragged_file (filename : string) (w : world)
    (recs : records) (r : list float64) (rest : records) :
  files w !! filename = Some recs ->
  nonblank recs = r :: rest ->
  (py_in "." (py_suffix 5 filename) = false ->
   Exists (fun r' => length r' <> length r) rest ->
   (load_data filename w).1 = Raise (ValueError msg_columns_changed)) /\
  (py_suffix 4 filename = ".csv" ->
   Exists (fun r' => length r < length r') rest ->
   (load_data filename w).1 = Raise (ParserError msg_tokenizing)).
Proof.
  intros Hfile Hnb. rewrite load_data_run. cbv zeta. split.
  - intros -> Hex. rewrite load_oomf_run. cbn [logged set_trace files].
    rewrite Hfile. unfold loadtxt_array. rewrite Hnb.
    destruct (forallb _ rest) eqn:Hall; [|reflexivity].
    apply forallb_same_length in Hall.
    apply Exists_exists in Hex as (r' & Hin & Hne).
    rewrite Forall_forall in Hall. by specialize (Hall r' Hin).
  - intros Hcsv Hex.
    rewrite (csv_suffix_has_dot _ Hcsv), Hcsv, String.eqb_refl, load_csv_run.
    rewrite Hcsv, String.eqb_refl. cbn [logged set_trace files].
    rewrite Hfile.
    destruct (read_csv_frame HeaderNone recs) as [df|e] eqn:Hdf.
    + apply read_csv_frame_inv in Hdf as (r0 & rest0 & E & Hle & _).
      rewrite Hnb in E. injection E as <- <-.
      apply Exists_exists in Hex as (r' & Hin & Hlt).
      rewrite Forall_forall in Hle. specialize (Hle r' Hin). lia.
    + unfold read_csv_frame, frame_rows in Hdf. rewrite Hnb in Hdf.
      destruct (forallb _ _); cbn in Hdf; [discriminate|]. by injection Hdf as <-.
Qed.

Lemma load_data_ragged_file_witness :
  (load_data "ragged" edge_world).1 = Raise (ValueError msg_columns_changed) /\
  (load_data "long.csv" edge_world).1 = Raise (ParserError msg_tokenizing).
Proof.
  split.
  - apply (load_data_ragged_file "ragged" edge_world
             [ [num 1; num 2; num 3; num 4; num 5; num 6]; [num 7; num 8; num 9] ]
             [num 1; num 2; num 3; num 4; num 5; num 6] [ [num 7; num 8; num 9] ]);
      [reflexivity..|]. apply Exists_cons_hd. cbn. lia.
  - apply (load_data_ragged_file "long.csv" edge_world
             [ [num 1; num 2; num 3; num 4; num 5; num 6];
               [num 7; num 8; num 9; num 1; num 1; num 1; num 1] ]
             [num 1; num 2; num 3; num 4; num 5; num 6]
             [ [num 7; num 8; num 9; num 1; num 1; num 1; num 1] ]);
      [reflexivity..|]. apply Exists_cons_hd. cbn. lia.
Defined.

(** ** The dispatch looks at the end of the name only *)

Lemma list_ascii_inj (s t : string) :
  list_ascii_of_string s = list_ascii_of_string t -> s = t.
Proof.
  intros H. apply (f_equal string_of_list_ascii) in H.
  by rewrite !string_of_list_ascii_of_string in H.
Qed.

Lemma string_length_app (s t : string) :
  String.length (s +:+ t) = String.length s + String.length t.
Proof. by rewrite <- !length_list_ascii, list_ascii_app, length_app. Qed.

Lemma py_suffix_app (n : nat) (p s : string) :
  n <= String.length s -> py_suffix n (p +:+ s) = py_suffix n s.
Proof.
  intros Hn. apply list_ascii_inj.
  rewrite !py_suffix_list, list_ascii_app, string_length_app.
  rewrite drop_app_ge by (rewrite length_list_ascii; lia).
  f_equal. rewrite length_list_ascii. lia.
Qed.

(** X12.  Only the last five characters of the name count: a name whose
    last five characters hold no dot is loaded in whitespace mode whatever
    comes before them, also when what comes before holds a dot (an
    extension of five or more characters, a dot in a directory name). *)
Theorem load_data_ignores_early_dots (p s : string) (w : world) :
  5 <= String.length s ->
  py_in "." (py_suffix 5 s) = false ->
  load_data (p +:+ s) w =
    load_oomf (p +:+ s) (logged (Printed ("loading " +:+ (p +:+ s) +:+ " ...")) w).
Proof.
  intros Hlen Hdot. rewrite load_data_run. cbv zeta.
  by rewrite (py_suffix_app 5 p s Hlen), Hdot.
Qed.

Lemma load_data_ignores_early_dots_witness :
  load_data "sample.jsonl" oomf_world =
    load_oomf "sample.jsonl" (logged (Printed "loading sample.jsonl ...") oomf_world).
Proof.
  apply (load_data_ignores_early_dots "sample." "jsonl" oomf_world).
  - cbn. lia.
  - reflexivity.
Defined.

(** A dot followed by at most four characters is among the last five. *)
Lemma late_dot_is_seen (p s : string) :
  String.length s <= 4 -> py_in "." (py_suffix 5 (p +:+ "." +:+ s)) = true.
Proof.
  intros Hlen. apply py_in_list.
  rewrite py_suffix_list, !list_ascii_app, !string_length_app.
  rewrite <- !length_list_ascii in *. cbn [list_ascii_of_string app length] in *.
  rewrite drop_app_le by lia.
  apply elem_of_app. right. apply list_elem_of_here.
Qed.

Lemma late_dot_is_not_csv (p s : string) :
  String.length s <= 4 -> s <> "csv" -> s <> ".csv" ->
  py_suffix 4 (p +:+ "." +:+ s) <> ".csv".
Proof.
  intros Hlen H3 H4 E. apply (f_equal list_ascii_of_string) in E.
  rewrite py_suffix_list, !list_ascii_app, !string_length_app in E.
  assert (list_ascii_of_string s <> list_ascii_of_string "csv") as H3'
    by (intros ?; by apply H3, list_ascii_inj).
  assert (list_ascii_of_string s <> list_ascii_of_string ".csv") as H4'
    by (intros ?; by apply H4, list_ascii_inj).
  rewrite <- !length_list_ascii in *.
  set (lp := list_ascii_of_string p) in *.
  set (ls := list_ascii_of_string s) in *. clearbody lp ls. clear H3 H4.
  cbn [list_ascii_of_string app length] in *.
  assert (length ls = 4 \/ length ls <= 3) as [H|H] by lia.
  - rewrite drop_app_ge in E by lia.
    match type of E with drop ?k _ = _ => replace k with 1 in E by lia end.
    cbn [drop] in E. rewrite ?drop_0 in E. done.
  - rewrite drop_app_le in E by lia.
    match type of E with drop ?k lp ++ _ = _ =>
      remember (drop k lp) as d eqn:Hd; clear Hd end.
    destruct ls as [|a [|b [|c [|? ?]]]]; cbn [length] in H; try lia;
      destruct d as [|x0 [|x1 [|x2 [|x3 [|? ?]]]]]; cbn [app] in E; try discriminate;
      try (injection E as -> -> ->; done).
Qed.

(** X13.  A dot among the last five characters always counts: a name that
    ends in a dot followed by at most four characters, other than [.csv],
    is rejected with the [ValueError] that names it, before any file is
    opened, also when the dot belongs to a directory name. *)
Theorem load_data_rejects_late_dot (p s : string) (w : world) :
  String.length s <= 4 -> s <> "csv" -> s <> ".csv" ->
  load_data (p +:+ "." +:+ s) w =
    (Raise (ValueError ((p +:+ "." +:+ s) +:+ " has an invalid extension.")),
     logged (Printed ("loading " +:+ (p +:+ "." +:+ s) +:+ " ...")) w).
Proof.
  intros Hlen H3 H4. rewrite load_data_run. cbv zeta.
  rewrite (late_dot_is_seen p s Hlen).
  pose proof (late_dot_is_not_csv p s Hlen H3 H4) as Hne.
  apply String.eqb_neq in Hne. by rewrite Hne.
Qed.

Lemma load_data_rejects_late_dot_witness :
  load_data "run.1/d" oomf_world =
    (Raise (ValueError "run.1/d has an invalid extension."),
     logged (Printed "loading run.1/d ...") oomf_world).
Proof.
  apply (load_data_rejects_late_dot "run" "1/d" oomf_world).
  - cbn. lia.
  - discriminate.
  - discriminate.
Defined.

(* ===================================================================== *)
(** * Rendering: further properties *)
(* ===================================================================== *)

(** The whole outcome of a call on tables of three columns with a position
    for every magnetization. *)
Lemma plot_magnetization_outcome_le (pos mag : loc) (figax : option (loc * loc))
    (w : world) (P Mg : list (list float64)) (f : figure) (arts : list artist) :
  array_value (arrays w) pos = Ok (Arr2 3 P) ->
  array_value (arrays w) mag = Ok (Arr2 3 Mg) ->
  Forall (fun r => length r = 3) P ->
  Forall (fun r => length r = 3) Mg ->
  length Mg <= length P ->
  figures (canvas_of figax w) !! (handles figax w).1 = Some f ->
  axes (canvas_of figax w) !! (handles figax w).2 = Some arts ->
  let w0 := canvas_of figax w in
  let fig := (handles figax w).1 in
  let ax := (handles figax w).2 in
  let sites := kept_sites P Mg in
  let Mz := column 2 sites.*2 in
  let made := filtered_objects (length (arrays w)) sites in
  plot_magnetization pos mag figax w =
  match np_max (Arr1 Mz), np_min (Arr1 Mz) with
  | Ok hi, Ok lo =>
      let d := F64.sub hi lo in
      (Ok (fig, ax),
       World (files w) (trace w)
         (arrays w ++ made ++ [Owned (Arr1 (colors Mz d))])
         (<[ax := arts ++ drawn sites d]> (axes w0) ++ [[Colorbar (ax, length arts)]])
         (<[fig := Figure (fig_axes f ++ [length (axes w0)])
                          (fig_colorbars f ++ [(ax, length arts)])]>
            (figures w0)))
  | Raise e, _ | Ok _, Raise e =>
      (Raise e, set_arrays w0 (arrays w ++ made))
  end.
Proof.
  intros Hpos Hmag HP HM Hlen Hf Ha. cbv zeta.
  rewrite plot_magnetization_on_canvas.
  assert (arrays (canvas_of figax w) = arrays w) as Harr by by destruct figax.
  assert (files (canvas_of figax w) = files w) as Hfiles by by destruct figax.
  assert (trace (canvas_of figax w) = trace w) as Htrace by by destruct figax.
  destruct (handles figax w) as [fig ax] eqn:Hh. cbn [fst snd] in *.
  rewrite (plot_magnetization_run_le (canvas_of figax w) pos mag fig ax P Mg f arts);
    rewrite ?Harr; try done.
  cbv zeta. rewrite ?Harr, ?Hfiles, ?Htrace. reflexivity.
Qed.












(* ===================================================================== *)
(** * Rendering only ever adds to a canvas *)
(* ===================================================================== *)

Lemma figure_eta (f : figure) :
  Figure (fig_axes f ++ []) (fig_colorbars f ++ []) = f.
Proof. destruct f. cbn. by rewrite !app_nil_r. Qed.

Lemma canvas_grows_same (w w' : world) :
  files w' = files w -> trace w' = trace w ->
  axes w' = axes w -> figures w' = figures w ->
  canvas_grows w w'.
Proof.
  intros Hf Ht Ha Hg. unfold canvas_grows. rewrite Hf, Ht, Ha, Hg.
  repeat split.
  - intros ax arts H. exists []. by rewrite app_nil_r.
  - intros fig f H. exists [], []. by rewrite figure_eta.
Qed.

Lemma canvas_grows_refl (w : world) : canvas_grows w w.
Proof. by apply canvas_grows_same. Qed.

Lemma canvas_grows_trans (w1 w2 w3 : world) :
  canvas_grows w1 w2 -> canvas_grows w2 w3 -> canvas_grows w1 w3.
Proof.
  intros (Hf1 & Ht1 & Hg1 & Hx1 & Hy1) (Hf2 & Ht2 & Hg2 & Hx2 & Hy2).
  unfold canvas_grows. rewrite Hf2, Ht2, Hg2. repeat split; try done.
  - intros ax arts H. destruct (Hx1 ax arts H) as [m1 H1].
    destruct (Hx2 ax _ H1) as [m2 H2]. exists (m1 ++ m2). by rewrite app_assoc.
  - intros fig f H. destruct (Hy1 fig f H) as (a1 & b1 & H1).
    destruct (Hy2 fig _ H1) as (a2 & b2 & H2). exists (a1 ++ a2), (b1 ++ b2).
    rewrite H2. cbn [fig_axes fig_colorbars]. by rewrite !app_assoc.
Qed.

Lemma keeps_bind {A B} (m : M A) (k : A -> M B) :
  keeps_canvas m -> (forall a, keeps_canvas (k a)) -> keeps_canvas (m ≫= k).
Proof.
  intros Hm Hk w. rewrite bind_run. specialize (Hm w).
  destruct (m w) as [[a|e] w']; cbn [snd] in *; [|exact Hm].
  eapply canvas_grows_trans; [exact Hm|apply Hk].
Qed.

Lemma keeps_ret {A} (a : A) : keeps_canvas (mret a : M A).
Proof. intros w. apply canvas_grows_refl. Qed.

Lemma keeps_raise {A} (e : exn) : keeps_canvas (@raise A e).
Proof. intros w. apply canvas_grows_refl. Qed.

Lemma keeps_lift {A} (r : result A) : keeps_canvas (lift r).
Proof. intros w. apply canvas_grows_refl. Qed.

Lemma keeps_read_array (l : loc) : keeps_canvas (read_array l).
Proof. intros w. apply canvas_grows_refl. Qed.

Lemma keeps_alloc_array (o : array_obj) : keeps_canvas (alloc_array o).
Proof. intros w. by apply canvas_grows_same. Qed.

Lemma keeps_view_on (l : loc) (ix : index2) : keeps_canvas (view_on l ix).
Proof.
  intros w. unfold view_on.
  destruct (arrays w !! l) as [[a|b ixs|a]|]; by apply canvas_grows_same.
Qed.

Lemma keeps_add_artist (ax : loc) (a : artist) : keeps_canvas (add_artist ax a).
Proof.
  intros w. unfold add_artist.
  destruct (axes w !! ax) as [arts|] eqn:Hax; [|apply canvas_grows_refl].
  cbn [snd]. unfold canvas_grows. cbn [set_axes files trace axes figures].
  repeat split.
  - intros ax' arts' H. destruct (decide (ax' = ax)) as [->|Hne].
    + rewrite Hax in H. injection H as <-. exists [a].
      apply list_lookup_insert_eq. by eapply lookup_lt_Some.
    + exists []. rewrite list_lookup_insert_ne by done. by rewrite app_nil_r.
  - intros fig f H. exists [], []. by rewrite figure_eta.
Qed.

Lemma keeps_fig_colorbar (fig : loc) (cr : mappable) :
  keeps_canvas (fig_colorbar fig cr).
Proof.
  intros w. unfold fig_colorbar.
  destruct (figures w !! fig) as [f|] eqn:Hfig; [|apply canvas_grows_refl].
  cbn [snd]. unfold canvas_grows.
  cbn [set_figures set_axes files trace axes figures].
  rewrite length_insert. repeat split.
  - intros ax arts H. exists []. rewrite app_nil_r. by apply lookup_app_l_Some.
  - intros fig' f' H. destruct (decide (fig' = fig)) as [->|Hne].
    + rewrite Hfig in H. injection H as <-. exists [length (axes w)], [cr].
      apply list_lookup_insert_eq. by eapply lookup_lt_Some.
    + exists [], []. rewrite list_lookup_insert_ne by done. by rewrite figure_eta.
Qed.

(** Keeping the canvas, piece by piece. *)
Ltac keeps :=
  repeat first
    [ apply keeps_ret | apply keeps_raise | apply keeps_lift
    | apply keeps_read_array | apply keeps_alloc_array | apply keeps_view_on
    | apply keeps_add_artist | apply keeps_fig_colorbar
    | progress cbv zeta
    | match goal with
      | |- keeps_canvas (if ?b then _ else _) => destruct b
      | |- keeps_canvas (match ?x with _ => _ end) => destruct x
      end
    | apply keeps_bind; [|intros ?] ].

Lemma keeps_plot_on (pos mag fig ax : loc) :
  keeps_canvas (plot_magnetization pos mag (Some (fig, ax))).
Proof.
  unfold plot_magnetization, figure_and_axes, index_rows, new_view, scalar_times,
    divided_by, array_max, array_min, ax_scatter, ax_quiver, new_array, new_value.
  keeps.
Qed.

(** ** Counting the axes *)

Lemma adds_bind {A B} (j k : nat) (m : M A) (f : A -> M B) :
  adds_axes j m -> (forall a, adds_axes k (f a)) -> adds_axes (j + k) (m ≫= f).
Proof.
  intros Hm Hf w. rewrite bind_run. specialize (Hm w).
  destruct (m w) as [[a|e] w']; cbn [snd] in *; [|lia].
  specialize (Hf a w'). lia.
Qed.

Lemma adds_ret {A} (a : A) : adds_axes 0 (mret a : M A).
Proof. intros w. cbn. lia. Qed.

Lemma adds_raise {A} (e : exn) : adds_axes 0 (@raise A e).
Proof. intros w. cbn. lia. Qed.

Lemma adds_lift {A} (r : result A) : adds_axes 0 (lift r).
Proof. intros w. cbn. lia. Qed.

Lemma adds_read_array (l : loc) : adds_axes 0 (read_array l).
Proof. intros w. cbn. lia. Qed.

Lemma adds_alloc_array (o : array_obj) : adds_axes 0 (alloc_array o).
Proof. intros w. cbn. lia. Qed.

Lemma adds_view_on (l : loc) (ix : index2) : adds_axes 0 (view_on l ix).
Proof.
  intros w. unfold view_on.
  destruct (arrays w !! l) as [[a|b ixs|a]|]; cbn; lia.
Qed.

Lemma adds_add_artist (ax : loc) (a : artist) : adds_axes 0 (add_artist ax a).
Proof.
  intros w. unfold add_artist.
  destruct (axes w !! ax) as [arts|]; cbn; rewrite ?length_insert; lia.
Qed.

Lemma adds_fig_colorbar (fig : loc) (cr : mappable) :
  adds_axes 1 (fig_colorbar fig cr).
Proof.
  intros w. unfold fig_colorbar.
  destruct (figures w !! fig) as [f|]; cbn; rewrite ?length_app; cbn; lia.
Qed.

(** Steps that make no axes. *)
Ltac no_axes :=
  repeat first
    [ apply adds_ret | apply adds_raise | apply adds_lift
    | apply adds_read_array | apply adds_alloc_array | apply adds_view_on
    | apply adds_add_artist
    | progress cbv zeta
    | match goal with
      | |- adds_axes 0 (if ?b then _ else _) => destruct b
      | |- adds_axes 0 (match ?x with _ => _ end) => destruct x
      end
    | apply (adds_bind 0 0); [|intros ?] ].

(** Of all the steps of a call, the colorbar alone makes an axes. *)
Lemma adds_plot_on (pos mag fig ax : loc) :
  adds_axes 1 (plot_magnetization pos mag (Some (fig, ax))).
Proof.
  unfold plot_magnetization, figure_and_axes, index_rows, new_view, scalar_times,
    divided_by, array_max, array_min, ax_scatter, ax_quiver, new_array, new_value.
  repeat (cbv zeta; apply (adds_bind 0 1); [solve [no_axes]|intros ?]).
  apply (adds_bind 1 0); [apply adds_fig_colorbar|intros ?; apply adds_ret].
Qed.

(** X18.  Whatever its arguments, and also when it raises,
    [plot_magnetization] prints nothing, opens and changes no file, makes
    no figure beyond the one it makes when it is given none, makes at most
    one axes beyond the one of that figure (the colorbar's), and takes
    nothing off a canvas: every axes keeps its artists and every figure
    its axes and colorbars, with at most more at the end. *)
Theorem plot_magnetization_only_adds (pos mag : loc) (figax : option (loc * loc))
    (w : world) :
  let w0 := canvas_of figax w in
  let w' := (plot_magnetization pos mag figax w).2 in
  canvas_grows w0 w' /\ length (axes w') <= length (axes w0) + 1.
Proof.
  cbv zeta. rewrite plot_magnetization_on_canvas.
  destruct (handles figax w) as [fig ax].
  split; [apply keeps_plot_on|apply adds_plot_on].
Qed.

(* ===================================================================== *)
(** * The entry point *)
(* ===================================================================== *)

Lemma loaded_ok (out : result (loc * loc) * world) (Pa Ma : ndarray float64) :
  loaded out = Ok (Pa, Ma) ->
  exists pos mag,
    out.1 = Ok (pos, mag) /\
    array_value (arrays out.2) pos = Ok Pa /\
    array_value (arrays out.2) mag = Ok Ma.
Proof.
  destruct out as [[[pos mag]|e] w1]; [|discriminate]. cbn [loaded fst snd].
  destruct (array_value (arrays w1) pos) as [p|e] eqn:Hp; [|discriminate].
  destruct (array_value (arrays w1) mag) as [m|e] eqn:Hm; [|discriminate].
  intros H. injection H as <- <-. by exists pos, mag.
Qed.

(** X19.  When loading fails, [main] fails with the same exception and
    nothing has been drawn: no figure and no axes has been made.  Without
    the option the file loaded is [test]. *)
Theorem main_load_failure (option_filename : option string) (w : world) (e : exn) :
  (load_data (default FILENAME option_filename) w).1 = Raise e ->
  let out := main option_filename w in
  out.1 = Raise e /\
  out.2 = (load_data (default FILENAME option_filename) w).2 /\
  axes out.2 = axes w /\ figures out.2 = figures w.
Proof.
  intros Hfail. cbv zeta. unfold main. cbv zeta. rewrite bind_run.
  destruct (load_data_canvas (default FILENAME option_filename) w) as (Ha & Hf).
  destruct (load_data (default FILENAME option_filename) w) as [[pm|e'] w1].
  - discriminate.
  - cbn [fst snd] in *. by injection Hfail as ->.
Qed.

Lemma main_load_failure_witness :
  let out := main None csv_world in
  out.1 = Raise (FileNotFoundError "test") /\
  out.2 = (load_data "test" csv_world).2 /\
  axes out.2 = axes csv_world /\ figures out.2 = figures csv_world.
Proof.
  apply (main_load_failure None csv_world (FileNotFoundError "test")).
  reflexivity.
Defined.

(** X20.  For a name taken for a whitespace-separated file (the arrays
    [np.loadtxt] hands out are [float64]), when loading succeeds, [main]
    has printed the progress line and opened the file, once, and draws on
    one new figure with one new axes exactly the sites of the loaded
    tables that have a magnetization, as one scatter and one quiver,
    coloured by the greatest and the least out-of-plane component; the
    figure gets one more axes, which holds the colorbar of the scatter.
    When no site has a magnetization [main] fails with the [ValueError] of
    [np.max]. *)
Theorem main_draws_the_magnetized_sites (option_filename : option string)
    (w : world) (Pa Ma : ndarray float64) :
  py_in "." (py_suffix 5 (default FILENAME option_filename)) = false ->
  loaded (load_data (default FILENAME option_filename) w) = Ok (Pa, Ma) ->
  exists P Mg,
    Pa = Arr2 3 P /\ Ma = Arr2 3 Mg /\ length P = length Mg /\
    let sites := kept_sites P Mg in
    let Mz := column 2 sites.*2 in
    let out := main option_filename w in
    let ax := length (axes w) in
    let filename := default FILENAME option_filename in
    trace out.2 =
      trace w ++ [Printed ("loading " +:+ filename +:+ " ..."); Opened filename] /\
    (sites = [] -> out.1 = Raise (ValueError msg_zero_size_max)) /\
    (sites <> [] ->
     exists hi lo,
       greatest Mz hi /\ least Mz lo /\
       out.1 = Ok tt /\
       axes out.2 = axes w ++ [drawn sites (F64.sub hi lo); [Colorbar (ax, 0)]] /\
       figures out.2 = figures w ++ [Figure [ax; ax + 1] [(ax, 0)]]).
Proof.
  intros Hdot Hload.
  assert (trace (load_data (default FILENAME option_filename) w).2 =
          trace w ++ [Printed ("loading " +:+ default FILENAME option_filename
                               +:+ " ...");
                      Opened (default FILENAME option_filename)]) as Htrace.
  { rewrite loaded_load_data, Hdot, loaded_load_oomf in Hload.
    rewrite load_data_run, Hdot. cbv zeta.
    destruct (load_oomf_effects (default FILENAME option_filename)
                (logged (Printed ("loading " +:+ default FILENAME option_filename
                                  +:+ " ...")) w)) as (-> & _).
    cbn [logged set_trace trace files].
    destruct (files w !! default FILENAME option_filename); [|discriminate].
    by rewrite <- app_assoc. }
  destruct (loaded_load_data_inv _ _ _ _ Hload) as (c & rows & Hwf & Hh).
  destruct (table_halves_wf c rows Pa Ma Hwf Hh)
    as (P & Mg & -> & -> & HlP & HlM & HP & HM).
  assert (length P = length Mg) as Hlen by congruence.
  exists P, Mg. split; [done|]. split; [done|]. split; [done|]. cbv zeta.
  destruct (loaded_ok _ _ _ Hload) as (pos & mag & Hok & Hpos & Hmag).
  destruct (load_data_canvas (default FILENAME option_filename) w) as (Ha & Hf).
  unfold main. cbv zeta. rewrite bind_run.
  destruct (load_data (default FILENAME option_filename) w) as [r w1].
  cbn [fst snd] in *. subst r. cbn [fst snd].
  rewrite bind_run.
  rewrite (plot_magnetization_outcome_le pos mag None w1 P Mg
             (Figure [length (axes w1)] []) []); try done; cycle 1.
  { by rewrite Hlen. }
  { apply (lookup_new _ _ []). }
  { apply (lookup_new _ _ []). }
  cbv zeta. cbn [canvas_of handles new_canvas fst snd axes figures
                 fig_axes fig_colorbars app length].
  split; [|split].
  - rewrite <- Htrace.
    destruct (np_max _) as [hi|e]; [destruct (np_min _) as [lo|e]|];
      try reflexivity.
    rewrite bind_run. unfold fig_tight_layout, plt_show. cbn [fst snd figures].
    rewrite !insert_app_r_alt, !Nat.sub_diag by done. cbn [insert list_insert].
    by rewrite (lookup_new _ _ []), ret_run.
  - intros ->. reflexivity.
  - intros Hne.
    destruct (np_max (Arr1 (column 2 (kept_sites P Mg).*2))) as [hi|e] eqn:Hhi;
      cycle 1.
    { destruct (kept_sites P Mg) as [|[p m] sites']; [done|discriminate]. }
    destruct (np_min (Arr1 (column 2 (kept_sites P Mg).*2))) as [lo|e] eqn:Hlo;
      cycle 1.
    { destruct (kept_sites P Mg) as [|[p m] sites']; [done|discriminate]. }
    exists hi, lo.
    split; [by apply np_max_greatest|]. split; [by apply np_min_least|].
    rewrite bind_run. unfold fig_tight_layout, plt_show. cbn [fst snd figures].
    rewrite !insert_app_r_alt, !Nat.sub_diag by done. cbn [insert list_insert].
    rewrite (lookup_new _ _ []), ret_run. cbn [fst snd axes figures].
    rewrite Ha, Hf, length_app, <- !app_assoc. done.
Qed.

Lemma main_draws_the_magnetized_sites_witness :
  exists P Mg,
    Arr2 3 [ [num 1; num 2; num 3]; [num 7; num 8; num 9] ] = Arr2 3 P /\
    Arr2 3 [ [num 4; num 5; num 6]; [num 0; num 0; num 1] ] = Arr2 3 Mg /\
    length P = length Mg /\
    let sites := kept_sites P Mg in
    let Mz := column 2 sites.*2 in
    let out := main (Some "data") oomf_world in
    trace out.2 = [Printed "loading data ..."; Opened "data"] /\
    (sites = [] -> out.1 = Raise (ValueError msg_zero_size_max)) /\
    (sites <> [] ->
     exists hi lo,
       greatest Mz hi /\ least Mz lo /\
       out.1 = Ok tt /\
       axes out.2 = [drawn sites (F64.sub hi lo); [Colorbar (0, 0)]] /\
       figures out.2 = [Figure [0; 1] [(0, 0)]]).
Proof.
  apply (main_draws_the_magnetized_sites (Some "data") oomf_world).
  - reflexivity.
  - reflexivity.
Defined.
